(** * Evaluation core of the OCP stack: metrics accumulator, task dispatch,
    threshold metrics, minimum-image displacement and the target normalizer.

    Sources embedded here:
    - [ocpmodels/modules/evaluator.py]: [Evaluator.update], [Evaluator.eval],
      [Evaluator.task_metrics], [energy_within_threshold],
      [energy_force_within_threshold], [min_diff];
    - [src/fairchem/core/modules/normalizer.py]: [Normalizer.norm],
      [Normalizer.denorm], [create_normalizer].

    Numbers: Python integers are [Z].  Python floats and tensor entries are
    embedded twice.  Where a property rests on comparisons, counts and the
    flow of control, they are exact rationals ([Qc], canonical fractions, so
    that equality is Leibniz equality).  Where a property rests on the
    arithmetic itself, they are IEEE 754 binary64 values ([PrimFloat.float])
    and every operation rounds as it does in the code: [Number],
    [Evaluator64] and [Normalizer64] below. *)

From Stdlib Require Import QArith Qcanon Qround Qcabs Ascii String Lqa.
From stdpp Require Import gmap strings list fin_maps numbers.
From Corelib Require PrimFloat SpecFloat FloatOps.
Import (notations) PrimFloat.
Import PrimFloat.PrimFloatNotations.

Set Warnings "-clear-no-such-hyp".
Set Warnings "-inexact-float".

Local Open Scope Qc_scope.
Local Open Scope list_scope.

(** ** Python exceptions and results *)

Inductive exn :=
| NotImplementedError
| ZeroDivisionError
| TypeError
| NameError
| KeyError
| AssertionError
| AttributeError
| RuntimeError
| ValueError
| IndexError
| LinAlgError
| OverflowError.

Inductive result (A : Type) :=
| Ok (a : A)
| Raise (e : exn).
Arguments Ok {A} a.
Arguments Raise {A} e.

Global Instance result_ret : MRet result := fun A a => Ok a.
Global Instance result_bind : MBind result := fun A B k r =>
  match r with
  | Ok a => k a
  | Raise e => Raise e
  end.
Global Instance result_fmap : FMap result := fun A B f r =>
  match r with
  | Ok a => Ok (f a)
  | Raise e => Raise e
  end.

(** How a call that mutates an object in place ended: it returned, or it
    raised after whatever mutation had already happened. *)
Inductive outcome :=
| Returned
| Raised (e : exn).

(** ** MetricRecord and MetricsTable *)

(** The dict [{"metric": ..., "total": ..., "numel": ...}].  [metric] is
    [None] in the zero record. *)
Record metric_record := MetricRecord {
  metric : option Qc;
  total : Qc;
  numel : Z
}.

(** The value handed to [Evaluator.update] as [stat], by its Python type.  Of
    a dict only the entries that [update] reads are kept: [stat["total"]] and
    [stat["numel"]]. *)
Inductive stat :=
| StatDict (stat_total : Qc) (stat_numel : Z) (* isinstance(stat, dict) *)
| StatNum (x : Qc)      (* isinstance(stat, float) or isinstance(stat, int) *)
| StatTensor            (* torch.is_tensor(stat) *)
| StatOther.            (* anything else: no branch applies *)

(** A metric function's returned dict, as the [stat] it is passed on as. *)
Definition stat_of_record (r : metric_record) : stat :=
  StatDict (total r) (numel r).


(** ** Arrays and batches *)

(** A row of an N×3 array (forces, positions), and a 3×3 cell given by its
    rows. *)
Definition vec3 : Type := Qc * Qc * Qc.
Definition mat3 : Type := vec3 * vec3 * vec3.

(** A prediction or target dict, restricted to the keys the embedded metric
    functions subscript.  An absent key is [None]; subscripting it raises
    [KeyError]. *)
Record batch := Batch {
  energy : option (list Qc);   (* "energy": one entry per structure *)
  forces : option (list vec3); (* "forces": one row per atom *)
  natoms : option (list nat)   (* "natoms": atoms per structure *)
}.

(** [d[key]] on a dict *)
Definition getitem {A} (field : option A) : result A :=
  match field with
  | Some v => Ok v
  | None => Raise KeyError
  end.

(** [a[i]] on a 1-D array *)
Definition index {A} (a : list A) (i : nat) : result A :=
  match a !! i with
  | Some v => Ok v
  | None => Raise IndexError
  end.

(** An elementwise binary operation along the leading axis with the
    broadcasting rule of torch and numpy: equal lengths pair up, a length-1
    operand is repeated, anything else raises [e] ([RuntimeError] in torch,
    [ValueError] in numpy). *)
Definition broadcast {A B C} (e : exn) (f : A -> B -> C)
    (a : list A) (b : list B) : result (list C) :=
  if decide (length a = length b) then Ok (zip_with f a b)
  else match a, b with
       | x :: nil, _ => Ok (map (f x) b)
       | _, y :: nil => Ok (map (fun x => f x y) a)
       | _, _ => Raise e
       end.

Definition vmap (f : Qc -> Qc) (v : vec3) : vec3 :=
  let '(x, y, z) := v in (f x, f y, f z).

Definition vsub (a b : vec3) : vec3 :=
  let '(ax, ay, az) := a in
  let '(bx, by_, bz) := b in
  (ax - bx, ay - by_, az - bz).

Definition components (v : vec3) : list Qc :=
  let '(x, y, z) := v in [x; y; z].

Definition Qc_max (a b : Qc) : Qc := if decide (a < b) then b else a.

(** [t.max()] over every entry of an N×3 tensor; torch raises [RuntimeError]
    on a tensor with no entry. *)
Definition tensor_max (rows : list vec3) : result Qc :=
  match concat (map components rows) with
  | nil => Raise RuntimeError
  | x :: xs => Ok (foldl Qc_max x xs)
  end.

Definition Qc_of_nat (n : nat) : Qc := Qc_of_Z (Z.of_nat n).

(** ** Threshold metrics *)

Definition f_thresh : Qc := Q2Qc (3 # 100).
Definition e_thresh : Qc := Q2Qc (2 # 100).

(** [success / total] with two Python ints: true division, which raises on a
    zero divisor. *)
Definition ratio (success total_ : nat) : result Qc :=
  if decide (total_ = 0%nat) then Raise ZeroDivisionError
  else Ok (Qc_of_nat success / Qc_of_nat total_).

(** The loop of [energy_force_within_threshold]:
    [for i, n in enumerate(target["natoms"])], with [start_idx] and [success]
    threaded through.  [and] short-circuits: the force slice is only looked at
    when the energy test passed. *)
Fixpoint count_success (natoms_ : list nat) (i start_idx : nat)
    (error_energy : list Qc) (error_forces : list vec3) (success : nat)
  : result nat :=
  match natoms_ with
  | nil => Ok success
  | n :: rest =>
      ee ← index error_energy i;
      if decide (ee < e_thresh) then
        m ← tensor_max (take n (drop start_idx error_forces));
        count_success rest (S i) (start_idx + n) error_energy error_forces
          (if decide (m < f_thresh) then S success else success)
      else
        count_success rest (S i) (start_idx + n) error_energy error_forces
          success
  end.

(** [energy_force_within_threshold(prediction, target, key=None)] *)
Definition energy_force_within_threshold (prediction target : batch)
  : result metric_record :=
  tn ← getitem (natoms target);
  pf ← getitem (forces prediction);
  if decide (sum_list tn ≠ length pf) then Raise AssertionError else
  pe ← getitem (energy prediction);
  if decide (length tn ≠ length pe) then Raise AssertionError else
  let total_ := length tn in
  tf ← getitem (forces target);
  df ← broadcast RuntimeError vsub tf pf;
  let error_forces := map (vmap Qcabs) df in
  te ← getitem (energy target);
  de ← broadcast RuntimeError Qcminus te pe;
  let error_energy := map Qcabs de in
  success ← count_success tn 0 0 error_energy error_forces 0;
  m ← ratio success total_;
  Ok {| metric := Some m;
        total := Qc_of_nat success;
        numel := Z.of_nat total_ |}.

(** [energy_within_threshold(prediction, target, key=None)] *)
Definition energy_within_threshold (prediction target : batch)
  : result metric_record :=
  te ← getitem (energy target);
  pe ← getitem (energy prediction);
  de ← broadcast RuntimeError Qcminus te pe;
  let error_energy := map Qcabs de in
  let success := length (filter (fun ee => ee < e_thresh) error_energy) in
  let total_ := length te in
  m ← ratio success total_;
  Ok {| metric := Some m;
        total := Qc_of_nat success;
        numel := Z.of_nat total_ |}.

(** ** [min_diff]: minimum-image displacement *)

Definition one_half : Qc := Q2Qc (1 # 2).

(** [x % 1.0]: floored modulo, the result has the sign of the divisor. *)
Definition mod1 (x : Qc) : Qc := x - Qc_of_Z (Qfloor x).

Definition transpose (m : mat3) : mat3 :=
  let '((a, b, c), (d, e, f), (g, h, i)) := m in
  ((a, d, g), (b, e, h), (c, f, i)).

Definition det (m : mat3) : Qc :=
  let '((a, b, c), (d, e, f), (g, h, i)) := m in
  a * (e * i - f * h) - b * (d * i - f * g) + c * (d * h - e * g).

(** The matrix [m] with column 0, 1 or 2 replaced by [v]. *)
Definition replace_column (k : nat) (m : mat3) (v : vec3) : mat3 :=
  let '((a, b, c), (d, e, f), (g, h, i)) := m in
  let '(x, y, z) := v in
  match k with
  | 0%nat => ((x, b, c), (y, e, f), (z, h, i))
  | 1%nat => ((a, x, c), (d, y, f), (g, z, i))
  | _ => ((a, b, x), (d, e, y), (g, h, z))
  end.

(** The solution [f] of [A · f = d] for a non-singular 3×3 [A] (Cramer). *)
Definition solve_column (A : mat3) (d : vec3) : vec3 :=
  (det (replace_column 0 A d) / det A,
   det (replace_column 1 A d) / det A,
   det (replace_column 2 A d) / det A).

(** [np.linalg.solve(cell.T, pos_diff.T).T]: row [k] of the result solves
    [cell.T · f = pos_diff[k]]; a singular matrix raises [LinAlgError]. *)
Definition linalg_solve_T (cell : mat3) (pos_diff : list vec3)
  : result (list vec3) :=
  if decide (det (transpose cell) = 0) then Raise LinAlgError
  else Ok (map (solve_column (transpose cell)) pos_diff).

(** One row of [fractional[:, i] %= 1.0]. *)
Definition mod_column (i : nat) (f : vec3) : vec3 :=
  let '(x, y, z) := f in
  match i with
  | 0%nat => (mod1 x, y, z)
  | 1%nat => (x, mod1 y, z)
  | _ => (x, y, mod1 z)
  end.

(** [for i, periodic in enumerate(pbc): if periodic: (the modulo, twice)].
    The array has three columns; a periodic flag at position 3 or later makes
    the column subscript raise [IndexError]. *)
Fixpoint wrap_periodic (i : nat) (pbc : list bool) (fractional : list vec3)
  : result (list vec3) :=
  match pbc with
  | nil => Ok fractional
  | periodic :: rest =>
      if periodic then
        if decide (i < 3)%nat then
          wrap_periodic (S i) rest
            (map (mod_column i) (map (mod_column i) fractional))
        else Raise IndexError
      else wrap_periodic (S i) rest fractional
  end.

(** One entry of [fractional[fractional > 0.5] -= 1]. *)
Definition shift (x : Qc) : Qc := if decide (one_half < x) then x - 1 else x.

(** One row of [np.matmul(fractional, cell)]. *)
Definition vecmat (f : vec3) (cell : mat3) : vec3 :=
  let '(x, y, z) := f in
  let '((a, b, c), (d, e, g), (h, i, j)) := cell in
  (x * a + y * d + z * h, x * b + y * e + z * i, x * c + y * g + z * j).

(** [min_diff(pred_pos, dft_pos, cell, pbc)] *)
Definition min_diff (pred_pos dft_pos : list vec3) (cell : mat3)
    (pbc : list bool) : result (list vec3) :=
  pos_diff ← broadcast ValueError vsub pred_pos dft_pos;
  fractional ← linalg_solve_T cell pos_diff;
  fractional ← wrap_periodic 0 pbc fractional;
  let fractional := map (vmap shift) fractional in
  Ok (map (fun f => vecmat f cell) fractional).

Definition identity : mat3 := ((1, 0, 0), (0, 1, 0), (0, 0, 1)).

(** The minimum-image interval as the code produces it: above -0.5, up to and
    including 0.5. *)
Definition minimum_image (c : Qc) : Prop := - one_half < c /\ c <= one_half.

(** What the three periodic axes and the shift do to one fractional
    component. *)
Definition wrapped (x : Qc) : Qc := shift (mod1 (mod1 x)).

(** ** Task specifications as Python values *)

(** The Python values a task specification is built from. *)
#[local] Unset Elimination Schemes.
Inductive pyval :=
| PyNone
| PyStr (s : string)
| PyList (l : list pyval)
| PyDict (d : list (string * pyval)).
#[local] Set Elimination Schemes.

(** A dict literal keeps insertion order; lookup by key. *)
Fixpoint assoc {A} (k : string) (d : list (string * A)) : option A :=
  match d with
  | nil => None
  | (k', v) :: rest => if decide (k = k') then Some v else assoc k rest
  end.

(** [for x in v] *)
Definition iterate (v : pyval) : result (list pyval) :=
  match v with
  | PyDict d => Ok (map (fun kv => PyStr (fst kv)) d)
  | PyList l => Ok l
  | PyStr s =>
      Ok (map (fun c => PyStr (String c EmptyString)) (list_ascii_of_string s))
  | PyNone => Raise TypeError
  end.

(** [v[k]]: only a dict can be subscripted by a string. *)
Definition subscript (v k : pyval) : result pyval :=
  match v, k with
  | PyDict d, PyStr s =>
      match assoc s d with
      | Some x => Ok x
      | None => Raise KeyError
      end
  | PyDict _, PyNone => Raise KeyError
  | _, _ => Raise TypeError
  end.

(** [p in s] on two strings: [p] occurs in [s] as a contiguous run. *)
Fixpoint contains (p s : string) : bool :=
  String.prefix p s ||
  match s with
  | EmptyString => false
  | String _ s' => contains p s'
  end.

(** What [eval(fn)(prediction, target, target_property)] does for a function
    name [fn]: the name is looked up and called with three positional
    arguments. *)
Definition caller : Type := string -> batch -> batch -> string -> result stat.

Module Evaluator.

(** [{"metric": None, "total": 0, "numel": 0}] *)
Definition zero_record : metric_record :=
  {| metric := None; total := 0; numel := 0 |}.

(** [if key not in metrics: metrics[key] = {...zero record...}] *)
Definition seed (key : string) (metrics : gmap string metric_record)
  : gmap string metric_record :=
  match metrics !! key with
  | Some _ => metrics
  | None => <[key := zero_record]> metrics
  end.

(** The three statements shared by the dict branch and the scalar branch:
    [metrics[key]["total"] += dt; metrics[key]["numel"] += dn;
     metrics[key]["metric"] = metrics[key]["total"] / metrics[key]["numel"]].
    The two [+=] are done before the division is evaluated, so when the
    division raises, [total] and [numel] are already updated and [metric]
    keeps its old value. *)
Definition accumulate (key : string) (dt : Qc) (dn : Z)
    (metrics : gmap string metric_record)
  : gmap string metric_record * outcome :=
  match metrics !! key with
  | None => (metrics, Raised KeyError)
  | Some r =>
      let t := total r + dt in
      let n := (numel r + dn)%Z in
      if decide (n = 0%Z)
      then (<[key := {| metric := metric r; total := t; numel := n |}]> metrics,
            Raised ZeroDivisionError)
      else (<[key := {| metric := Some (t / Qc_of_Z n); total := t; numel := n |}]> metrics,
            Returned)
  end.

(** [Evaluator.update(self, key, stat, metrics)].  The dict [metrics] is
    mutated in place and returned; the first component is the state of that
    dict when the call ends. *)
Definition update (key : string) (st : stat)
    (metrics : gmap string metric_record)
  : gmap string metric_record * outcome :=
  let metrics := seed key metrics in
  match st with
  | StatDict dt dn => accumulate key dt dn metrics
  | StatNum x => accumulate key x 1 metrics
  | StatTensor => (metrics, Raised NotImplementedError)
  | StatOther => (metrics, Returned)
  end.

(** [{"metrics": [...]}] *)
Definition metrics_entry (fns : list string) : pyval :=
  PyDict [("metrics", PyList (map PyStr fns))].

(** The class attribute [task_metrics], as written. *)
Definition task_metrics : list (string * pyval) :=
  [("s2ef",
    PyDict
      [("energy", metrics_entry ["energy_mae"]);
       ("forces",
        metrics_entry
          ["forcesx_mae"; "forcesy_mae"; "forcesz_mae"; "forces_mae";
           "forces_cos"; "forces_magnitude";
           "energy_force_within_threshold"])]);
   ("is2rs",
    PyDict
      [("positions",
        metrics_entry
          ["average_distance_within_threshold"; "positions_mae";
           "positions_mse"])]);
   ("is2re",
    PyDict
      [("metrics",
        PyList
          [PyStr "energy_mae"; PyStr "energy_mse";
           PyStr "energy_within_threshold"])])].

(** [self]: the attributes [__init__] sets. *)
Record evaluator := {
  task : option string;
  target_metrics : pyval
}.

(** [Evaluator(task, eval_metrics)]:
    [self.target_metrics = self.task_metrics.get(task, eval_metrics)] *)
Definition init (task_ : option string) (eval_metrics : pyval) : evaluator :=
  {| task := task_;
     target_metrics :=
       match task_ with
       | Some t => default eval_metrics (assoc t task_metrics)
       | None => eval_metrics
       end |}.

(** The key a result is stored under:
    [f"{target_property}_{fn}" if target_property not in fn else fn] *)
Definition metric_name (target_property fn : string) : string :=
  if contains target_property fn then fn
  else target_property +:+ "_" +:+ fn.

(** The inner loop of [eval]:
    [for fn in self.target_metrics[target_property]["metrics"]].  A [fn] that
    is not a string cannot be handed to Python's [eval]. *)
Fixpoint eval_fns (call : caller) (prediction target : batch)
    (target_property : string) (fns : list pyval)
    (metrics : gmap string metric_record)
  : gmap string metric_record * outcome :=
  match fns with
  | nil => (metrics, Returned)
  | PyStr fn :: rest =>
      match call fn prediction target target_property with
      | Raise e => (metrics, Raised e)
      | Ok res =>
          match update (metric_name target_property fn) res metrics with
          | (metrics', Returned) =>
              eval_fns call prediction target target_property rest metrics'
          | (metrics', Raised e) => (metrics', Raised e)
          end
      end
  | _ :: _ => (metrics, Raised TypeError)
  end.

(** The outer loop of [eval]: [for target_property in self.target_metrics]. *)
Fixpoint eval_properties (call : caller) (prediction target : batch)
    (target_metrics_ : pyval) (properties : list pyval)
    (metrics : gmap string metric_record)
  : gmap string metric_record * outcome :=
  match properties with
  | nil => (metrics, Returned)
  | target_property :: rest =>
      match
        (entry ← subscript target_metrics_ target_property;
         fns ← subscript entry (PyStr "metrics");
         iterate fns)
      with
      | Raise e => (metrics, Raised e)
      | Ok fns =>
          match target_property with
          | PyStr p =>
              match eval_fns call prediction target p fns metrics with
              | (metrics', Returned) =>
                  eval_properties call prediction target target_metrics_ rest
                    metrics'
              | (metrics', Raised e) => (metrics', Raised e)
              end
          | _ => (metrics, Raised TypeError)
          end
      end
  end.

(** [Evaluator.eval(self, prediction, target, prev_metrics)].
    [metrics = prev_metrics] binds the same dict, which [update] mutates; the
    first component is that dict when the call ends. *)
Definition eval (call : caller) (self : evaluator) (prediction target : batch)
    (prev_metrics : gmap string metric_record)
  : gmap string metric_record * outcome :=
  match iterate (target_metrics self) with
  | Raise e => (prev_metrics, Raised e)
  | Ok properties =>
      eval_properties call prediction target (target_metrics self) properties
        prev_metrics
  end.

(** [eval(prediction, target)] with [prev_metrics] omitted.  The signature is
    [prev_metrics={}]: the default is one dict, built when the [def] statement
    ran and kept on the function object, and every call that omits the
    argument binds the parameter to that same dict.  [default_dict] is its
    state before the call; the result pairs what the call returned with the
    state of the default dict after it. *)
Definition eval_default (call : caller) (self : evaluator)
    (prediction target : batch) (default_dict : gmap string metric_record)
  : (gmap string metric_record * outcome) * gmap string metric_record :=
  let r := eval call self prediction target default_dict in
  (r, fst r).

(** The module's own names, as [eval(fn)(prediction, target, key)] meets them.
    - [energy_within_threshold], [energy_force_within_threshold]: embedded
      above.
    - [forces_mae], [forces_mse], [forces_cos], [forces_magnitude],
      [positions_mae], [positions_mse]: declared with two parameters, so a
      call with three positional arguments raises [TypeError]; [min_diff] has
      four parameters and no default.
    - [magnitude_error]: reads [prediction.shape] of the dict it is given.
    - [energy_mae], [energy_mse]: no such name is defined.
    Every other name (the metric functions over floating-point norms and
    means, builtins) is left to [others]. *)
Definition module_call (others : caller) : caller :=
  fun fn prediction target key =>
    if decide (fn = "energy_within_threshold") then
      stat_of_record <$> energy_within_threshold prediction target
    else if decide (fn = "energy_force_within_threshold") then
      stat_of_record <$> energy_force_within_threshold prediction target
    else if decide (fn ∈ ["forces_mae"; "forces_mse"; "forces_cos";
                          "forces_magnitude"; "positions_mae";
                          "positions_mse"; "min_diff"]) then
      Raise TypeError
    else if decide (fn = "magnitude_error") then Raise AttributeError
    else if decide (fn ∈ ["energy_mae"; "energy_mse"]) then Raise NameError
    else others fn prediction target key.

End Evaluator.

(** ** Normalizer *)

Module Normalizer.

(** A float tensor of rank 0, 1 or 2.  A 2-D tensor of shape
    [(length rows, cols)] is given by its column count and its rows, each of
    [cols] entries: the count is the part of the shape that a tensor with no
    row still has. *)
Inductive tensor :=
| Scalar (x : Qc)
| Vector (xs : list Qc)
| Matrix (cols : nat) (rows : list (list Qc)).

(** The size that two sizes broadcast to along one axis: they are equal or
    one of them is 1; otherwise [RuntimeError]. *)
Definition broadcast_size (a b : nat) : result nat :=
  if decide (a = b) then Ok a
  else if decide (a = 1%nat) then Ok b
  else if decide (b = 1%nat) then Ok a
  else Raise RuntimeError.

(** [a op b] on tensors, with torch's broadcasting: shapes are aligned from
    the last axis, and along each axis the sizes are equal or one of them
    is 1; otherwise [RuntimeError].  The sizes of the last axis are checked
    on the shapes themselves, so also when there is no row. *)
Definition elementwise (f : Qc -> Qc -> Qc) (a b : tensor) : result tensor :=
  match a, b with
  | Scalar x, Scalar y => Ok (Scalar (f x y))
  | Scalar x, Vector ys => Ok (Vector (map (f x) ys))
  | Vector xs, Scalar y => Ok (Vector (map (fun x => f x y) xs))
  | Scalar x, Matrix c rows => Ok (Matrix c (map (map (f x)) rows))
  | Matrix c rows, Scalar y =>
      Ok (Matrix c (map (map (fun x => f x y)) rows))
  | Vector xs, Vector ys => Vector <$> broadcast RuntimeError f xs ys
  | Matrix c rows, Vector ys =>
      c' ← broadcast_size c (length ys);
      Matrix c' <$> mapM (fun row => broadcast RuntimeError f row ys) rows
  | Vector xs, Matrix c rows =>
      c' ← broadcast_size (length xs) c;
      Matrix c' <$> mapM (fun row => broadcast RuntimeError f xs row) rows
  | Matrix c1 rows1, Matrix c2 rows2 =>
      c' ← broadcast_size c1 c2;
      pairs ← broadcast RuntimeError pair rows1 rows2;
      Matrix c' <$>
        mapM (fun p => broadcast RuntimeError f (fst p) (snd p)) pairs
  end.

(** The module's two buffers. *)
Record t := Make {
  mean : tensor;
  std : tensor
}.

(** [Normalizer()]: [mean=0.0], [std=1.0], each turned into a tensor. *)
Definition default : t := {| mean := Scalar 0; std := Scalar 1 |}.

(** [(tensor - self.mean) / self.std] *)
Definition norm (self : t) (x : tensor) : result tensor :=
  d ← elementwise Qcminus x (mean self);
  elementwise Qcdiv d (std self).

(** [normed_tensor * self.std + self.mean] *)
Definition denorm (self : t) (normed_tensor : tensor) : result tensor :=
  m ← elementwise Qcmult normed_tensor (std self);
  elementwise Qcplus m (mean self).

(** An entry of a state dict: a plain float (legacy files) or a tensor. *)
Inductive entry :=
| Float (x : Qc)
| Tensor (v : tensor).

(** A state dict, by its "mean" and "std" entries. *)
Record state_dict := StateDict {
  sd_mean : option entry;
  sd_std : option entry
}.

(** What [file] holds: a state dict that [torch.load] reads, or an npz
    archive, on which [torch.load] raises [RuntimeError] and
    [np.load(file).get(...)] gives the "mean" and "std" arrays it has. *)
Inductive file_content :=
| PtFile (sd : state_dict)
| NpzFile (npz_mean npz_std : option tensor).

Definition to_tensor (e : entry) : tensor :=
  match e with
  | Float x => Scalar x
  | Tensor v => v
  end.

Section Create.

(** torch's own functions, taken as given: [nn.Module.load_state_dict] on a
    module with these buffers, [torch.mean(_, dim=0)], [torch.std(_, dim=0)]. *)
Variable module_load_state_dict : t -> state_dict -> result t.
Variable torch_mean : tensor -> tensor.
Variable torch_std : tensor -> tensor.

(** [Normalizer.load_state_dict(self, state_dict)]: legacy floats are turned
    into tensors, then the module loads the dict.  The method has no [return]
    statement: the call evaluates to [None], whatever was loaded. *)
Definition load_state_dict (self : t) (sd : state_dict) : result unit :=
  m ← getitem (sd_mean sd);
  sd' ← match m with
        | Float _ =>
            s ← getitem (sd_std sd);
            Ok {| sd_mean := Some (Tensor (to_tensor m));
                  sd_std := Some (Tensor (to_tensor s)) |}
        | Tensor _ => Ok sd
        end;
  _ ← module_load_state_dict self sd';
  Ok ().

(** [create_normalizer(file, state_dict, tensor, mean, std, device)].
    [normalizer.to(device)] moves the buffers and changes no value. *)
Definition create_normalizer (file : option file_content)
    (state_dict_ : option state_dict) (tensor_ : option tensor)
    (mean_ std_ : option tensor) : result t :=
  let '(state_dict_, mean_, std_) :=
    match file with
    | Some (PtFile sd) => (Some sd, mean_, std_)
    | Some (NpzFile m s) => (state_dict_, m, s)
    | None => (state_dict_, mean_, std_)
    end in
  match state_dict_ with
  | Some sd =>
      (* normalizer = Normalizer().load_state_dict(state_dict) is None *)
      _ ← load_state_dict default sd;
      Raise AttributeError
  | None =>
      let '(mean_, std_) :=
        match tensor_, mean_, std_ with
        | Some x, Some _, Some _ => (Some (torch_mean x), Some (torch_std x))
        | _, Some m, Some s => (Some m, Some s)
        | _, _, _ => (mean_, std_)
        end in
      match mean_, std_ with
      | Some m, Some s => Ok {| mean := m; std := s |}
      | _, _ => Raise ValueError
      end
  end.

End Create.

End Normalizer.

(** ** Python's numbers *)

Module Number.

(** A number as Python holds it: an [int], of any size and exact, or a
    [float], an IEEE 754 binary64 value. *)
Inductive t :=
| Int (z : Z)
| Float (f : PrimFloat.float).

(** An integer as a floating-point datum of unbounded precision. *)
Definition exact (z : Z) : SpecFloat.spec_float :=
  match z with
  | Z0 => SpecFloat.S754_zero false
  | Zpos p => SpecFloat.S754_finite false p 0
  | Zneg p => SpecFloat.S754_finite true p 0
  end.

(** The magnitude from which the nearest binary64 value is no longer finite:
    halfway between the largest float, [2^1024 - 2^971], and [2^1024]. *)
Definition overflow : Z := (2 ^ 1024 - 2 ^ 970)%Z.

(** [float(z)]: the nearest float, ties to even; [OverflowError] when that is
    not a finite float. *)
Definition float_of_int (z : Z) : result PrimFloat.float :=
  if decide (overflow <= Z.abs z)%Z then Raise OverflowError
  else Ok (FloatOps.SF2Prim
             (SpecFloat.binary_normalize FloatOps.prec FloatOps.emax
                z 0 false)).

(** [a + b]: exact on two ints; with a float on either side the int is
    turned into a float and the sum is rounded. *)
Definition add (a b : t) : result t :=
  match a, b with
  | Int x, Int y => Ok (Int (x + y))
  | Int x, Float g => f ← float_of_int x; Ok (Float (f + g))
  | Float f, Int y => g ← float_of_int y; Ok (Float (f + g))
  | Float f, Float g => Ok (Float (f + g))
  end.

(** The float nearest to the exact quotient of two ints, ties to even. *)
Definition quotient (a b : Z) : PrimFloat.float :=
  FloatOps.SF2Prim
    (SpecFloat.SFdiv FloatOps.prec FloatOps.emax (exact a) (exact b)).

(** [a / b] on two ints: [ZeroDivisionError] for a zero divisor,
    [OverflowError] when the quotient is too large for a float. *)
Definition int_truediv (a b : Z) : result PrimFloat.float :=
  if decide (b = 0%Z) then Raise ZeroDivisionError
  else if decide (overflow * Z.abs b <= Z.abs a)%Z then Raise OverflowError
  else Ok (quotient a b).

(** [a / n] for an int [n]: true division of two ints, or float division
    after [n] is turned into a float. *)
Definition truediv (a : t) (n : Z) : result PrimFloat.float :=
  match a with
  | Int x => int_truediv x n
  | Float f =>
      g ← float_of_int n;
      if PrimFloat.is_zero g then Raise ZeroDivisionError else Ok (f / g)%float
  end.

End Number.

(** ** The accumulator over Python's numbers *)

(** [Evaluator.update] once more, with [total] and [metric] as the numbers
    Python computes with: a [total] is an [int] or a [float], [numel] is an
    [int], and [metric] is the [float] that [/] returns. *)
Module Evaluator64.

Record metric_record := MetricRecord {
  metric : option PrimFloat.float;
  total : Number.t;
  numel : Z
}.

Inductive stat :=
| StatDict (stat_total : Number.t) (stat_numel : Z)
| StatNum (x : Number.t)
| StatTensor
| StatOther.

(** [{"metric": None, "total": 0, "numel": 0}] *)
Definition zero_record : metric_record :=
  {| metric := None; total := Number.Int 0; numel := 0 |}.

Definition seed (key : string) (metrics : gmap string metric_record)
  : gmap string metric_record :=
  match metrics !! key with
  | Some _ => metrics
  | None => <[key := zero_record]> metrics
  end.

(** [metrics[key]["total"] += dt; metrics[key]["numel"] += dn;
     metrics[key]["metric"] = metrics[key]["total"] / metrics[key]["numel"]].
    When the first [+=] raises, nothing has been assigned; when the division
    raises, [total] and [numel] are already updated. *)
Definition accumulate (key : string) (dt : Number.t) (dn : Z)
    (metrics : gmap string metric_record)
  : gmap string metric_record * outcome :=
  match metrics !! key with
  | None => (metrics, Raised KeyError)
  | Some r =>
      match Number.add (total r) dt with
      | Raise e => (metrics, Raised e)
      | Ok t =>
          let n := (numel r + dn)%Z in
          match Number.truediv t n with
          | Raise e =>
              (<[key := {| metric := metric r; total := t; numel := n |}]>
                 metrics,
               Raised e)
          | Ok q =>
              (<[key := {| metric := Some q; total := t; numel := n |}]>
                 metrics,
               Returned)
          end
      end
  end.

Definition update (key : string) (st : stat)
    (metrics : gmap string metric_record)
  : gmap string metric_record * outcome :=
  let metrics := seed key metrics in
  match st with
  | StatDict dt dn => accumulate key dt dn metrics
  | StatNum x => accumulate key x 1 metrics
  | StatTensor => (metrics, Raised NotImplementedError)
  | StatOther => (metrics, Returned)
  end.

(** [for u in us: metrics = evaluator.update(key, u, metrics)] *)
Fixpoint update_all (key : string) (us : list stat)
    (metrics : gmap string metric_record)
  : gmap string metric_record * outcome :=
  match us with
  | nil => (metrics, Returned)
  | u :: rest =>
      match update key u metrics with
      | (metrics', Returned) => update_all key rest metrics'
      | (metrics', Raised e) => (metrics', Raised e)
      end
  end.

(** What one update adds to [total] and to [numel]. *)
Definition added_total (u : stat) : Number.t :=
  match u with
  | StatDict dt _ => dt
  | StatNum x => x
  | _ => Number.Int 0
  end.

Definition added_numel (u : stat) : Z :=
  match u with
  | StatDict _ dn => dn
  | StatNum _ => 1
  | _ => 0
  end.

(** [sum(xs, start)]: from [start], left to right. *)
Fixpoint sum (start : Number.t) (xs : list Number.t) : result Number.t :=
  match xs with
  | nil => Ok start
  | x :: rest => s ← Number.add start x; sum s rest
  end.

(** A sub-group of updates summed beforehand into one record,
    [{"total": sum(totals), "numel": sum(numels)}]. *)
Definition presum (group : list stat) : result stat :=
  t ← sum (Number.Int 0) (map added_total group);
  Ok (StatDict t (foldr Z.add 0%Z (map added_numel group))).

(** The entry under [key], or the zero record [update] would seed. *)
Definition current (key : string) (metrics : gmap string metric_record)
  : metric_record :=
  default zero_record (metrics !! key).

(** The value of an [int]. *)
Definition int_of (x : Number.t) : Z :=
  match x with
  | Number.Int z => z
  | Number.Float _ => 0
  end.

(** Totals of this magnitude per counted element keep every quotient well
    inside the floats. *)
Definition bound : Z := (2 ^ 1023)%Z.

(** An update whose total is an [int]: an [int] observation, or a record
    with an [int] total over at least one element. *)
Definition counted (u : stat) : Prop :=
  match u with
  | StatDict (Number.Int z) n => (0 < n)%Z /\ (Z.abs z <= bound * n)%Z
  | StatNum (Number.Int z) => (Z.abs z <= bound)%Z
  | _ => False
  end.

(** A record with an [int] total, as the zero record is. *)
Definition settled (r : metric_record) : Prop :=
  match total r with
  | Number.Int z => (Z.abs z <= bound * numel r)%Z
  | Number.Float _ => False
  end.

Definition sum_total (us : list stat) : Z :=
  foldr (fun u acc => (int_of (added_total u) + acc)%Z) 0%Z us.

Definition sum_numel (us : list stat) : Z :=
  foldr (fun u acc => (added_numel u + acc)%Z) 0%Z us.

(** The record [update] leaves when [int]s were merged. *)
Definition merged (t n : Z) : metric_record :=
  {| metric := Some (Number.quotient t n); total := Number.Int t;
     numel := n |}.

End Evaluator64.

(** ** The normalizer on float64 values *)

(** [Normalizer.norm] and [Normalizer.denorm] once more, on 0-dim tensors of
    dtype float64: [mean], [std] and the input are IEEE 754 binary64 values
    and every operation rounds. *)
Module Normalizer64.

Record t := Make {
  mean : PrimFloat.float;
  std : PrimFloat.float
}.

(** [(tensor - self.mean) / self.std] *)
Definition norm (self : t) (x : PrimFloat.float) : PrimFloat.float :=
  ((x - mean self) / std self)%float.

(** [normed_tensor * self.std + self.mean] *)
Definition denorm (self : t) (normed_tensor : PrimFloat.float)
  : PrimFloat.float :=
  (normed_tensor * std self + mean self)%float.

End Normalizer64.

(** ** Per-structure success, stated on the structures themselves *)

(** The rows of a flattened per-atom array, cut at the structure boundaries
    that the cumulative atom counts give. *)
Fixpoint segments (natoms_ : list nat) (rows : list vec3) : list (list vec3) :=
  match natoms_ with
  | nil => []
  | n :: rest => take n rows :: segments rest (drop n rows)
  end.

(** Every component of every row is below the threshold. *)
Definition within (t : Qc) (rows : list vec3) : Prop :=
  Forall (fun v => Forall (fun c => c < t) (components v)) rows.

(** A structure, as its absolute energy error and the absolute force errors
    of its atoms, succeeds when the energy error is below 0.02 and every
    force error of every atom is below 0.03. *)
Definition structure_success (s : Qc * list vec3) : Prop :=
  s.1 < e_thresh /\ within f_thresh s.2.

Global Instance structure_success_dec s : Decision (structure_success s).
Proof. unfold structure_success, within. apply _. Defined.

Definition success_count (natoms_ : list nat) (error_energy : list Qc)
    (error_forces : list vec3) : nat :=
  length (filter structure_success
            (zip error_energy (segments natoms_ error_forces))).

(** ** Shapes a normalizer fits *)

(** No entry of the tensor is zero. *)
Definition nonzero (s : Normalizer.tensor) : Prop :=
  match s with
  | Normalizer.Scalar x => x ≠ 0
  | Normalizer.Vector xs => Forall (fun x => x ≠ 0) xs
  | Normalizer.Matrix _ rows => Forall (Forall (fun x => x ≠ 0)) rows
  end.

(** [c] is a scalar statistic, or a per-channel one with as many entries as
    the last axis of [x]: as the vector [x] has entries, or as the 2-D tensor
    [x] has columns, whose rows then have that many entries each. *)
Definition per_channel (x c : Normalizer.tensor) : Prop :=
  match c, x with
  | Normalizer.Scalar _, _ => True
  | Normalizer.Vector cs, Normalizer.Vector xs => length xs = length cs
  | Normalizer.Vector cs, Normalizer.Matrix cols rows =>
      cols = length cs /\ Forall (fun row => length row = cols) rows
  | _, _ => False
  end.

(** A scalar or per-channel statistic laid out along a row of [n] entries. *)
Definition along (c : Normalizer.tensor) (n : nat) : list Qc :=
  match c with
  | Normalizer.Scalar y => replicate n y
  | Normalizer.Vector ys => ys
  | Normalizer.Matrix _ _ => []
  end.

(** ** The pairs a task specification makes [eval] dispatch *)

(** A string entry of a function list. *)
Definition function_name (v : pyval) : option string :=
  match v with
  | PyStr fn => Some fn
  | _ => None
  end.

(** The function names under ["metrics"] for property [p], in order. *)
Definition functions_of (target_metrics_ : pyval) (p : string) : list string :=
  match
    (entry ← subscript target_metrics_ (PyStr p);
     fns ← subscript entry (PyStr "metrics");
     iterate fns)
  with
  | Ok fns => omap function_name fns
  | Raise _ => []
  end.

(** Every (target-property, metric-function) pair of a specification. *)
Definition dispatched (target_metrics_ : pyval) : list (string * string) :=
  match target_metrics_ with
  | PyDict d =>
      flat_map (fun p => map (pair p) (functions_of target_metrics_ p))
               (map fst d)
  | _ => []
  end.

(** ** Concrete evaluators and batches *)

(** [Evaluator(eval_metrics={"energy": {"metrics":
    ["energy_within_threshold"]}})] *)
Definition energy_evaluator : Evaluator.evaluator :=
  Evaluator.init None
    (PyDict [("energy", Evaluator.metrics_entry ["energy_within_threshold"])]).

(** A batch of one structure with energy 1. *)
Definition unit_energy_batch : batch :=
  {| energy := Some [1]; forces := None; natoms := None |}.

(** [Evaluator(eval_metrics={"energy": {"metrics":
    ["energy_within_threshold"]}, "forces": {"metrics":
    ["energy_force_within_threshold"]}})] *)
Definition threshold_evaluator : Evaluator.evaluator :=
  Evaluator.init None
    (PyDict
       [("energy", Evaluator.metrics_entry ["energy_within_threshold"]);
        ("forces",
         Evaluator.metrics_entry ["energy_force_within_threshold"])]).

(** One structure of two atoms, energy 1, forces all zero. *)
Definition two_atom_batch : batch :=
  {| energy := Some [1];
     forces := Some [(0, 0, 0); (0, 0, 0)];
     natoms := Some [2%nat] |}.

(** A normalizer with two channels, and a batch of two rows. *)
Definition two_channel_normalizer : Normalizer.t :=
  {| Normalizer.mean := Normalizer.Vector [1; 2];
     Normalizer.std := Normalizer.Vector [2; Qc_of_Z 4] |}.

Definition two_row_sample : Normalizer.tensor :=
  Normalizer.Matrix 2 [[Qc_of_Z 3; Qc_of_Z 5]; [Qc_of_Z (-7); 0]].

(** Two structures, of two and of three atoms: the first is predicted
    within both thresholds, the second misses on one force component. *)
Definition target_2_3 : batch :=
  {| energy := Some [1; 2];
     forces := Some [(0, 0, 0); (0, 0, 0); (0, 0, 0); (0, 0, 0); (0, 0, 0)];
     natoms := Some [2%nat; 3%nat] |}.

Definition prediction_2_3 : batch :=
  {| energy := Some [1 + Q2Qc (1 # 100); 2];
     forces := Some [(Q2Qc (1 # 100), 0, 0); (0, 0, 0); (0, 0, 0);
                     (0, Q2Qc (3 # 100), 0); (0, 0, 0)];
     natoms := Some [2%nat; 3%nat] |}.

(** The same prediction with only four force rows. *)
Definition prediction_four_rows : batch :=
  {| energy := Some [1 + Q2Qc (1 # 100); 2];
     forces := Some [(Q2Qc (1 # 100), 0, 0); (0, 0, 0); (0, 0, 0);
                     (0, 0, 0)];
     natoms := Some [2%nat; 3%nat] |}.

(** A batch of no structure, and a batch of one structure with no atom. *)
Definition empty_batch : batch :=
  {| energy := Some []; forces := Some []; natoms := Some [] |}.

Definition no_atom_batch : batch :=
  {| energy := Some [1]; forces := Some []; natoms := Some [0%nat] |}.

(** A batch that holds energies only. *)
Definition energy_batch (es : list Qc) : batch :=
  {| energy := Some es; forces := None; natoms := None |}.

(** Names outside the module: nothing is defined. *)
Definition no_others : caller := fun _ _ _ _ => Raise NameError.

(** ** Updates and the records they leave *)

(** What one update adds to [total] and to [numel]. *)
Definition added_total (u : stat) : Qc :=
  match u with
  | StatDict dt _ => dt
  | StatNum x => x
  | _ => 0
  end.

Definition added_numel (u : stat) : Z :=
  match u with
  | StatDict _ dn => dn
  | StatNum _ => 1
  | _ => 0
  end.

(** A scalar observation, or a pre-aggregated record over at least one
    element. *)
Definition counted (u : stat) : Prop :=
  match u with
  | StatDict _ dn => (0 < dn)%Z
  | StatNum _ => True
  | _ => False
  end.

(** The record [update] leaves after a division that went through. *)
Definition merged (t : Qc) (n : Z) : metric_record :=
  {| metric := Some (t / Qc_of_Z n); total := t; numel := n |}.

(** The entry under [key], or the zero record [update] would seed. *)
Definition current (key : string) (metrics : gmap string metric_record)
  : metric_record :=
  default Evaluator.zero_record (metrics !! key).

(** ** Mean absolute and mean squared error *)

(** A Python float that a reduction returns: a number, or [nan] (the mean of
    a tensor with no entry). *)
Inductive pyfloat :=
| Num (q : Qc)
| NaN.

(** The dict [{"metric": torch.mean(error).item(),
    "total": torch.sum(error).item(), "numel": error.numel()}]. *)
Record measured := Measured {
  measured_metric : pyfloat;
  measured_total : Qc;
  measured_numel : nat
}.

Definition sum_entries (error : list Qc) : Qc := foldr Qcplus 0 error.

(** The three reductions over the entries of [error], in row-major order. *)
Definition measure (error : list Qc) : measured :=
  {| measured_metric :=
       match error with
       | nil => NaN
       | _ :: _ => Num (sum_entries error / Qc_of_nat (length error))
       end;
     measured_total := sum_entries error;
     measured_numel := length error |}.

(** The dict of a [measured], as [Evaluator.update] reads it. *)
Definition stat_of_measured (m : measured) : stat :=
  StatDict (measured_total m) (Z.of_nat (measured_numel m)).

(** [mae(prediction, target)] on two 1-D tensors ([key] is [slice(None)]):
    [error = torch.abs(target - prediction)]. *)
Definition mae_vector (prediction target : list Qc) : result measured :=
  d ← broadcast RuntimeError Qcminus target prediction;
  Ok (measure (map Qcabs d)).

(** [mse(prediction, target)] on two 1-D tensors:
    [error = (target - prediction) ** 2]. *)
Definition mse_vector (prediction target : list Qc) : result measured :=
  d ← broadcast RuntimeError Qcminus target prediction;
  Ok (measure (map (fun x => x * x) d)).

(** [t[:, k]] of an N×3 tensor, for [k] in 0, 1, 2. *)
Definition column (k : nat) (rows : list vec3) : list Qc :=
  map (fun v => let '(x, y, z) := v in
                match k with 0%nat => x | 1%nat => y | _ => z end) rows.

(** [forcesx_mae], [forcesy_mae], [forcesz_mae] for [k] = 0, 1, 2:
    [mae(prediction["forces"][:, k], target["forces"][:, k])]. *)
Definition forces_column_mae (k : nat) (prediction target : batch)
  : result measured :=
  pf ← getitem (forces prediction);
  tf ← getitem (forces target);
  mae_vector (column k pf) (column k tf).

(** [forcesx_mse], [forcesy_mse], [forcesz_mse]. *)
Definition forces_column_mse (k : nat) (prediction target : batch)
  : result measured :=
  pf ← getitem (forces prediction);
  tf ← getitem (forces target);
  mse_vector (column k pf) (column k tf).

Definition forcesx_mae := forces_column_mae 0.
Definition forcesy_mae := forces_column_mae 1.
Definition forcesz_mae := forces_column_mae 2.
Definition forcesx_mse := forces_column_mse 0.
Definition forcesy_mse := forces_column_mse 1.
Definition forcesz_mse := forces_column_mse 2.

(** ** Batches put together *)

(** Two batches collated into one: the per-structure and per-atom arrays
    concatenated.  Keys are present in the result when both have them. *)
Definition concat_field {A} (a b : option (list A)) : option (list A) :=
  match a, b with
  | Some x, Some y => Some (x ++ y)
  | _, _ => None
  end.

Definition collate (a b : batch) : batch :=
  {| energy := concat_field (energy a) (energy b);
     forces := concat_field (forces a) (forces b);
     natoms := concat_field (natoms a) (natoms b) |}.

(** ** The zero row *)

Definition origin : vec3 := (0, 0, 0).

(** ** Stats that [update] merges *)

(** A dict or a number: the two kinds of [stat] that reach a division. *)
Definition merges (st : stat) : Prop :=
  match st with
  | StatDict _ _ | StatNum _ => True
  | _ => False
  end.

(** ** What [eval] stores *)

(** The record that merging [st] into [r] gives: a dict adds its [total] and
    [numel], a number adds itself and one element, and [metric] becomes the
    quotient of the two sums; any other value leaves the record as it is. *)
Definition merge_into (r : metric_record) (st : stat) : metric_record :=
  match st with
  | StatDict dt dn => merged (total r + dt) (numel r + dn)
  | StatNum x => merged (total r + x) (numel r + 1)
  | StatTensor | StatOther => r
  end.

(** What the dispatched pairs named [k] return, in dispatch order. *)
Definition results_under (call : caller) (prediction target : batch)
    (k : string) (pairs : list (string * string)) : list stat :=
  omap (fun pf =>
          if decide (Evaluator.metric_name pf.1 pf.2 = k)
          then match call pf.2 prediction target pf.1 with
               | Ok res => Some res
               | Raise _ => None
               end
          else None) pairs.

(** The entry under a name once [results] are stored there: with no result,
    the prior entry or none; otherwise the prior entry, or the zero record
    when there was none, with the results merged in one after another. *)
Definition stored (k : string) (results : list stat)
    (prev : gmap string metric_record) : option metric_record :=
  match results with
  | [] => prev !! k
  | _ :: _ => Some (foldl merge_into (current k prev) results)
  end.

(** A specification whose every property holds a [{"metrics": [names]}]
    entry. *)
Definition well_formed (target_metrics_ : pyval) : Prop :=
  match target_metrics_ with
  | PyDict d =>
      Forall (fun kv => exists fns, kv.2 = Evaluator.metrics_entry fns) d
  | _ => False
  end.

(** * Properties *)

(** ** The accumulator *)

Lemma seed_lookup key (metrics : gmap string metric_record) :
  is_Some (Evaluator.seed key metrics !! key).
Proof.
  unfold Evaluator.seed. destruct (metrics !! key) eqn:E.
  - rewrite E. eauto.
  - rewrite lookup_insert_eq. eauto.
Qed.

Lemma seed_absent key (metrics : gmap string metric_record) :
  metrics !! key = None ->
  Evaluator.seed key metrics = <[key := Evaluator.zero_record]> metrics.
Proof. intros H. unfold Evaluator.seed. by rewrite H. Qed.

Lemma seed_present key (metrics : gmap string metric_record) r :
  metrics !! key = Some r -> Evaluator.seed key metrics = metrics.
Proof. intros H. unfold Evaluator.seed. by rewrite H. Qed.

(** C10: a tensor [stat] makes [update] raise [NotImplementedError], for
    every table and every name; the dict is left as [seed] made it, so when
    the name was absent the zero record is in the table although the call
    failed, and the table is no longer the one passed in. *)
Theorem update_tensor_raises_after_seeding
    (key : string) (metrics : gmap string metric_record) :
  snd (Evaluator.update key StatTensor metrics) = Raised NotImplementedError
  /\ fst (Evaluator.update key StatTensor metrics) = Evaluator.seed key metrics
  /\ (metrics !! key = None ->
      fst (Evaluator.update key StatTensor metrics) !! key
        = Some Evaluator.zero_record
      /\ fst (Evaluator.update key StatTensor metrics) ≠ metrics).
Proof.
  split; [reflexivity|]. split; [reflexivity|].
  intros Habs. simpl. rewrite (seed_absent _ _ Habs). split.
  - apply lookup_insert_eq.
  - intros Heq. apply (f_equal (fun m => m !! key)) in Heq.
    rewrite lookup_insert_eq, Habs in Heq. discriminate.
Qed.

(** *** One counted update *)

Lemma counted_numel_pos (u : stat) : counted u -> (0 < added_numel u)%Z.
Proof. destruct u; simpl; intros; try lia; contradiction. Qed.

Lemma update_counted key (u : stat) (metrics : gmap string metric_record) :
  counted u ->
  (0 <= numel (current key metrics))%Z ->
  Evaluator.update key u metrics =
    (<[key := merged (total (current key metrics) + added_total u)
                     (numel (current key metrics) + added_numel u)]> metrics,
     Returned).
Proof.
  intros Hu Hn. apply counted_numel_pos in Hu.
  assert (Hacc : forall dt dn, dt = added_total u -> dn = added_numel u ->
    Evaluator.accumulate key dt dn (Evaluator.seed key metrics) =
      (<[key := merged (total (current key metrics) + dt)
                       (numel (current key metrics) + dn)]> metrics,
       Returned)).
  { intros dt dn -> ->. unfold Evaluator.accumulate, current in *.
    destruct (metrics !! key) as [r|] eqn:E; simpl in *.
    - rewrite (seed_present _ _ _ E), E.
      destruct (decide _) as [Hz|_]; [lia|reflexivity].
    - rewrite (seed_absent _ _ E), lookup_insert_eq. simpl.
      destruct (decide _) as [Hz|_]; [lia|].
      by rewrite insert_insert_eq. }
  destruct u; simpl in *; try lia; by apply Hacc.
Qed.

Lemma current_insert key r (metrics : gmap string metric_record) :
  current key (<[key := r]> metrics) = r.
Proof. unfold current. by rewrite lookup_insert_eq. Qed.

Lemma concat_nonempty_nil {A} (groups : list (list A)) :
  Forall (fun g => g ≠ []) groups -> concat groups = [] -> groups = [].
Proof.
  intros [|g gs Hg _]; [done|]. simpl. intros Happ.
  apply app_eq_nil in Happ as [? _]. contradiction.
Qed.

(** *** Integer totals: sums do not depend on order or grouping *)

Lemma bound_positive : (0 < Evaluator64.bound)%Z.
Proof. reflexivity. Qed.

Lemma bound_below_overflow : (Evaluator64.bound < Number.overflow)%Z.
Proof. reflexivity. Qed.

Lemma int_truediv_bounded (t n : Z) :
  (0 < n)%Z ->
  (Z.abs t <= Evaluator64.bound * n)%Z ->
  Number.int_truediv t n = Ok (Number.quotient t n).
Proof.
  intros Hn Ht. unfold Number.int_truediv.
  rewrite decide_False by lia.
  rewrite decide_False; [reflexivity|].
  pose proof bound_below_overflow as Hb.
  rewrite (Z.abs_eq n) by lia.
  assert (Evaluator64.bound * n < Number.overflow * n)%Z
    by (apply Z.mul_lt_mono_pos_r; lia).
  lia.
Qed.

Lemma sum_total64_perm (us vs : list Evaluator64.stat) :
  us ≡ₚ vs -> Evaluator64.sum_total us = Evaluator64.sum_total vs.
Proof.
  induction 1 as [|u us vs _ IH|u v us|us vs ws _ IH1 _ IH2]; simpl.
  - reflexivity.
  - by rewrite IH.
  - fold (Evaluator64.sum_total us). lia.
  - by rewrite IH1.
Qed.

Lemma sum_numel64_perm (us vs : list Evaluator64.stat) :
  us ≡ₚ vs -> Evaluator64.sum_numel us = Evaluator64.sum_numel vs.
Proof.
  induction 1 as [|u us vs _ IH|u v us|us vs ws _ IH1 _ IH2]; simpl.
  - reflexivity.
  - by rewrite IH.
  - fold (Evaluator64.sum_numel us). lia.
  - by rewrite IH1.
Qed.

Lemma sum_total64_app (us vs : list Evaluator64.stat) :
  Evaluator64.sum_total (us ++ vs)
  = (Evaluator64.sum_total us + Evaluator64.sum_total vs)%Z.
Proof.
  induction us as [|u us IH]; simpl; [reflexivity|].
  fold (Evaluator64.sum_total (us ++ vs)) (Evaluator64.sum_total us). lia.
Qed.

Lemma sum_numel64_app (us vs : list Evaluator64.stat) :
  Evaluator64.sum_numel (us ++ vs)
  = (Evaluator64.sum_numel us + Evaluator64.sum_numel vs)%Z.
Proof.
  induction us as [|u us IH]; simpl; [reflexivity|].
  fold (Evaluator64.sum_numel (us ++ vs)) (Evaluator64.sum_numel us). lia.
Qed.

(** What a counted update adds. *)
Lemma counted64_adds (u : Evaluator64.stat) :
  Evaluator64.counted u ->
  Evaluator64.added_total u
    = Number.Int (Evaluator64.int_of (Evaluator64.added_total u))
  /\ (0 < Evaluator64.added_numel u)%Z
  /\ (Z.abs (Evaluator64.int_of (Evaluator64.added_total u))
      <= Evaluator64.bound * Evaluator64.added_numel u)%Z.
Proof.
  destruct u as [[z|f] n|[z|f]| |]; simpl; try contradiction.
  - intros [Hn Hz]. by repeat split.
  - intros Hz. repeat split; lia.
Qed.

Lemma sums64_bounded (us : list Evaluator64.stat) :
  Forall Evaluator64.counted us ->
  (0 <= Evaluator64.sum_numel us)%Z
  /\ (Z.abs (Evaluator64.sum_total us)
      <= Evaluator64.bound * Evaluator64.sum_numel us)%Z.
Proof.
  induction 1 as [|u us Hu _ [IHn IHt]]; simpl; [split; lia|].
  fold (Evaluator64.sum_total us) (Evaluator64.sum_numel us).
  destruct (counted64_adds u Hu) as (_ & Hn & Ht). split; lia.
Qed.

Lemma sum_numel64_pos (us : list Evaluator64.stat) :
  Forall Evaluator64.counted us -> us ≠ [] ->
  (0 < Evaluator64.sum_numel us)%Z.
Proof.
  intros [|u us' Hu Hus] Hne; [done|]. simpl.
  fold (Evaluator64.sum_numel us').
  destruct (counted64_adds u Hu) as (_ & Hn & _).
  destruct (sums64_bounded us' Hus) as [? _]. lia.
Qed.

(** *** Pre-summing a group of counted updates *)

Lemma sum_counted (us : list Evaluator64.stat) :
  forall a : Z,
  Forall Evaluator64.counted us ->
  Evaluator64.sum (Number.Int a) (map Evaluator64.added_total us)
  = Ok (Number.Int (a + Evaluator64.sum_total us)).
Proof.
  induction us as [|u us IH]; intros a Hall; simpl.
  - do 2 f_equal. lia.
  - inversion Hall as [|? ? Hu Hus]; subst.
    destruct (counted64_adds u Hu) as (-> & _). simpl.
    rewrite IH by done. fold (Evaluator64.sum_total us).
    do 2 f_equal. lia.
Qed.

Lemma presum_counted (group : list Evaluator64.stat) :
  Forall Evaluator64.counted group ->
  Evaluator64.presum group
  = Ok (Evaluator64.StatDict (Number.Int (Evaluator64.sum_total group))
                             (Evaluator64.sum_numel group)).
Proof.
  intros Hall. unfold Evaluator64.presum. rewrite sum_counted by done.
  simpl. do 2 f_equal. induction group as [|u us IH]; simpl; [done|].
  inversion Hall; subst. by rewrite IH.
Qed.

(** The pre-summed record of each group. *)
Lemma presums_counted (groups : list (list Evaluator64.stat)) :
  Forall (fun g => g ≠ []) groups ->
  Forall Evaluator64.counted (concat groups) ->
  exists sums,
    mapM Evaluator64.presum groups = Ok sums
    /\ Forall Evaluator64.counted sums
    /\ Evaluator64.sum_total sums = Evaluator64.sum_total (concat groups)
    /\ Evaluator64.sum_numel sums = Evaluator64.sum_numel (concat groups)
    /\ (groups ≠ [] -> sums ≠ []).
Proof.
  induction 1 as [|g gs Hg _ IH]; simpl; intros Hall.
  - exists []. repeat split; [constructor | done].
  - apply Forall_app in Hall as [Hg' Hgs].
    destruct (IH Hgs) as (sums & Hm & Hc & Ht & Hn & _).
    eexists. cbn [mapM]. rewrite (presum_counted g Hg').
    cbn [mbind result_bind]. rewrite Hm. cbn [mbind result_bind mret result_ret].
    split; [reflexivity|].
    destruct (sums64_bounded g Hg') as [_ Hb].
    pose proof (sum_numel64_pos g Hg' Hg) as Hpos.
    split; [constructor; [by split | done]|].
    split; [|split; [|done]]; simpl.
    + fold (Evaluator64.sum_total sums). rewrite sum_total64_app. lia.
    + fold (Evaluator64.sum_numel sums). rewrite sum_numel64_app. lia.
Qed.

(** *** One counted update, then many *)

Lemma seed64_absent key (m : gmap string Evaluator64.metric_record) :
  m !! key = None ->
  Evaluator64.seed key m = <[key := Evaluator64.zero_record]> m.
Proof. intros H. unfold Evaluator64.seed. by rewrite H. Qed.

Lemma seed64_present key (m : gmap string Evaluator64.metric_record) r :
  m !! key = Some r -> Evaluator64.seed key m = m.
Proof. intros H. unfold Evaluator64.seed. by rewrite H. Qed.

Lemma update64_counted key (u : Evaluator64.stat)
    (m : gmap string Evaluator64.metric_record) :
  Evaluator64.counted u ->
  Evaluator64.settled (Evaluator64.current key m) ->
  Evaluator64.update key u m =
    (<[key := Evaluator64.merged
                (Evaluator64.int_of
                   (Evaluator64.total (Evaluator64.current key m))
                 + Evaluator64.int_of (Evaluator64.added_total u))
                (Evaluator64.numel (Evaluator64.current key m)
                 + Evaluator64.added_numel u)]> m,
     Returned).
Proof.
  intros Hu Hm. destruct (counted64_adds u Hu) as (Hint & Hn & Ht).
  pose proof bound_positive as Hb.
  assert (Hacc : forall dt dn,
    dt = Evaluator64.added_total u -> dn = Evaluator64.added_numel u ->
    Evaluator64.accumulate key dt dn (Evaluator64.seed key m) =
      (<[key := Evaluator64.merged
                  (Evaluator64.int_of
                     (Evaluator64.total (Evaluator64.current key m))
                   + Evaluator64.int_of dt)
                  (Evaluator64.numel (Evaluator64.current key m) + dn)]> m,
       Returned)).
  { intros dt dn -> ->. rewrite Hint at 1.
    unfold Evaluator64.accumulate, Evaluator64.current, Evaluator64.settled
      in *.
    assert (Hq : forall r : Evaluator64.metric_record,
      match Evaluator64.total r with
      | Number.Int z => (Z.abs z <= Evaluator64.bound * Evaluator64.numel r)%Z
      | Number.Float _ => False
      end ->
      Number.add (Evaluator64.total r)
        (Number.Int (Evaluator64.int_of (Evaluator64.added_total u)))
      = Ok (Number.Int (Evaluator64.int_of (Evaluator64.total r)
                        + Evaluator64.int_of (Evaluator64.added_total u)))
      /\ Number.truediv
           (Number.Int (Evaluator64.int_of (Evaluator64.total r)
                        + Evaluator64.int_of (Evaluator64.added_total u)))
           (Evaluator64.numel r + Evaluator64.added_numel u)
         = Ok (Number.quotient
                 (Evaluator64.int_of (Evaluator64.total r)
                  + Evaluator64.int_of (Evaluator64.added_total u))
                 (Evaluator64.numel r + Evaluator64.added_numel u))).
    { intros r Hr. destruct (Evaluator64.total r) as [z|f]; [|done].
      split; [reflexivity|]. simpl. apply int_truediv_bounded; nia. }
    destruct (m !! key) as [r|] eqn:E; cbn [default] in *.
    - rewrite (seed64_present _ _ _ E), E.
      destruct (Hq r Hm) as [-> ->]. reflexivity.
    - rewrite (seed64_absent _ _ E), lookup_insert_eq.
      destruct (Hq Evaluator64.zero_record Hm) as [-> ->].
      by rewrite insert_insert_eq. }
  destruct u; simpl in *; try contradiction; by apply Hacc.
Qed.

Lemma current64_insert key r (m : gmap string Evaluator64.metric_record) :
  Evaluator64.current key (<[key := r]> m) = r.
Proof. unfold Evaluator64.current. by rewrite lookup_insert_eq. Qed.

Lemma update_all64_counted key (us : list Evaluator64.stat) :
  forall m : gmap string Evaluator64.metric_record,
  Forall Evaluator64.counted us ->
  us ≠ [] ->
  Evaluator64.settled (Evaluator64.current key m) ->
  Evaluator64.update_all key us m =
    (<[key := Evaluator64.merged
                (Evaluator64.int_of
                   (Evaluator64.total (Evaluator64.current key m))
                 + Evaluator64.sum_total us)
                (Evaluator64.numel (Evaluator64.current key m)
                 + Evaluator64.sum_numel us)]> m,
     Returned).
Proof.
  induction us as [|u rest IH]; intros m Hall Hne Hm; [done|].
  inversion Hall as [|? ? Hu Hrest]; subst. simpl.
  rewrite (update64_counted _ _ _ Hu Hm).
  fold (Evaluator64.sum_total rest) (Evaluator64.sum_numel rest).
  destruct (counted64_adds u Hu) as (_ & Hn & Ht).
  destruct rest as [|v rest'].
  - simpl. do 2 f_equal. f_equal; lia.
  - rewrite IH; [|done|done|].
    + rewrite current64_insert, insert_insert_eq. simpl.
      do 2 f_equal. f_equal; lia.
    + rewrite current64_insert.
      unfold Evaluator64.settled in *. simpl.
      destruct (Evaluator64.total (Evaluator64.current key m)) as [z|f];
        [|done]. simpl. lia.
Qed.

(** C1, amended: updates whose totals are Python [int]s, each over at least
    one element and of magnitude at most [2^1023] per element, are folded
    into a table whose entry under the name, if any, is of the same kind.
    Then folding them one at a time returns; every sub-group of a split into
    non-empty sub-groups pre-sums without error; and merging the updates
    themselves in any other order, or the pre-summed records taken in any
    order, returns with the same final table.  The entry holds the summed
    [total] and [numel], and [metric] is the float nearest to
    [total / numel]. *)
Theorem update_order_and_grouping_independent
    (key : string) (us : list Evaluator64.stat)
    (groups : list (list Evaluator64.stat))
    (metrics : gmap string Evaluator64.metric_record) :
  Forall Evaluator64.counted us ->
  Evaluator64.settled (Evaluator64.current key metrics) ->
  Forall (fun g => g ≠ []) groups ->
  concat groups ≡ₚ us ->
  snd (Evaluator64.update_all key us metrics) = Returned
  /\ (forall reordered : list Evaluator64.stat,
        reordered ≡ₚ us ->
        Evaluator64.update_all key reordered metrics
        = Evaluator64.update_all key us metrics)
  /\ (exists sums : list Evaluator64.stat,
        mapM Evaluator64.presum groups = Ok sums
        /\ forall order : list Evaluator64.stat,
             order ≡ₚ sums ->
             Evaluator64.update_all key order metrics
             = Evaluator64.update_all key us metrics)
  /\ (us ≠ [] ->
      fst (Evaluator64.update_all key us metrics) !! key =
        Some {| Evaluator64.metric :=
                  Some (Number.quotient
                          (Evaluator64.int_of
                             (Evaluator64.total
                                (Evaluator64.current key metrics))
                           + Evaluator64.sum_total us)
                          (Evaluator64.numel
                             (Evaluator64.current key metrics)
                           + Evaluator64.sum_numel us));
                Evaluator64.total :=
                  Number.Int
                    (Evaluator64.int_of
                       (Evaluator64.total (Evaluator64.current key metrics))
                     + Evaluator64.sum_total us);
                Evaluator64.numel :=
                  Evaluator64.numel (Evaluator64.current key metrics)
                  + Evaluator64.sum_numel us |}).
Proof.
  intros Hus Hm Hgs Hcat.
  assert (Hcounted : Forall Evaluator64.counted (concat groups)).
  { by rewrite Hcat. }
  destruct (presums_counted groups Hgs Hcounted)
    as (sums & Hsums & Hc & Ht & Hn & Hne).
  destruct us as [|u us'].
  - apply Permutation_nil_r in Hcat.
    apply concat_nonempty_nil in Hcat; [|done]. subst groups.
    split; [reflexivity|]. split; [|split; [|done]].
    + intros reordered Hre. apply Permutation_nil_r in Hre. by subst.
    + exists []. split; [reflexivity|].
      intros order Hord. apply Permutation_nil_r in Hord. by subst order.
  - rewrite (update_all64_counted key (u :: us') metrics) by done.
    split; [reflexivity|]. split; [|split].
    + intros reordered Hre.
      assert (Hre_ne : reordered ≠ []).
      { intros ->. by apply Permutation_nil_cons in Hre. }
      rewrite (update_all64_counted key reordered metrics);
        [|by rewrite Hre|done|done].
      by rewrite (sum_total64_perm _ _ Hre), (sum_numel64_perm _ _ Hre).
    + exists sums. split; [exact Hsums|]. intros order Hord.
      assert (Hgne : groups ≠ []).
      { intros ->. simpl in Hcat. by apply Permutation_nil_cons in Hcat. }
      assert (Hord_ne : order ≠ []).
      { intros ->. symmetry in Hord. apply Permutation_nil_r in Hord.
        by apply Hne. }
      rewrite (update_all64_counted key order metrics);
        [|by rewrite Hord|done|done].
      rewrite (sum_total64_perm _ _ Hord), (sum_numel64_perm _ _ Hord).
      rewrite Ht, Hn.
      by rewrite (sum_total64_perm _ _ Hcat), (sum_numel64_perm _ _ Hcat).
    + intros _. simpl. apply lookup_insert_eq.
Qed.

(** C1 as stated fails, in three ways.
    - Float totals: [0.1], [0.2], [0.3] merged one at a time leave the total
      [0.6000000000000001]; merged in reverse order, or as [0.1] and the
      pre-summed [0.2 + 0.3], they leave [0.6].
    - A record over no element: [{total: 0, numel: 0}] followed by [1]
      raises [ZeroDivisionError] one at a time and merges without error when
      the two are summed beforehand.
    - [int] totals beyond the floats: [10^400] followed by [-10^400] raises
      [OverflowError] at the first division and merges without error when
      the two are summed beforehand. *)
Lemma update_grouping_fails_on_floats_and_empty_records :
  (let us := [Evaluator64.StatNum (Number.Float 0.1);
              Evaluator64.StatNum (Number.Float 0.2);
              Evaluator64.StatNum (Number.Float 0.3)] in
   let one_at_a_time := Evaluator64.update_all "energy_mae" us ∅ in
   let reversed := Evaluator64.update_all "energy_mae" (reverse us) ∅ in
   snd one_at_a_time = Returned
   /\ Evaluator64.total <$> fst one_at_a_time !! "energy_mae"
      = Some (Number.Float 0.6000000000000001)
   /\ snd reversed = Returned
   /\ Evaluator64.total <$> fst reversed !! "energy_mae"
      = Some (Number.Float 0.6)
   /\ (exists sums,
         mapM Evaluator64.presum
           [[Evaluator64.StatNum (Number.Float 0.1)];
            [Evaluator64.StatNum (Number.Float 0.2);
             Evaluator64.StatNum (Number.Float 0.3)]] = Ok sums
         /\ snd (Evaluator64.update_all "energy_mae" sums ∅) = Returned
         /\ Evaluator64.total <$>
              fst (Evaluator64.update_all "energy_mae" sums ∅)
                !! "energy_mae"
            = Some (Number.Float 0.6))
   /\ Number.Float 0.6000000000000001 ≠ Number.Float 0.6)
  /\ (let us := [Evaluator64.StatDict (Number.Int 0) 0;
                 Evaluator64.StatNum (Number.Int 1)] in
      snd (Evaluator64.update_all "energy_mae" us ∅)
        = Raised ZeroDivisionError
      /\ exists s,
           Evaluator64.presum us = Ok s
           /\ snd (Evaluator64.update_all "energy_mae" [s] ∅) = Returned)
  /\ (let us := [Evaluator64.StatNum (Number.Int (10 ^ 400));
                 Evaluator64.StatNum (Number.Int (- 10 ^ 400))] in
      snd (Evaluator64.update_all "energy_mae" us ∅) = Raised OverflowError
      /\ exists s,
           Evaluator64.presum us = Ok s
           /\ snd (Evaluator64.update_all "energy_mae" [s] ∅) = Returned).
Proof.
  split; [|split].
  - cbv zeta. split; [by vm_compute|]. split; [by vm_compute|].
    split; [by vm_compute|]. split; [by vm_compute|]. split.
    + eexists. split; [by vm_compute|]. split; by vm_compute.
    + intros H.
      apply (f_equal (fun x => match x with
                               | Number.Float f => PrimFloat.eqb f 0.6
                               | Number.Int _ => false
                               end)) in H.
      vm_compute in H. discriminate H.
  - cbv zeta. split; [by vm_compute|].
    eexists. split; [by vm_compute|]. by vm_compute.
  - cbv zeta. split; [by vm_compute|].
    eexists. split; [by vm_compute|]. by vm_compute.
Qed.

Lemma update_order_and_grouping_witness :
  snd (Evaluator64.update_all "energy_within_threshold"
         [Evaluator64.StatDict (Number.Int 1) 2;
          Evaluator64.StatNum (Number.Int 1);
          Evaluator64.StatDict (Number.Int 3) 3] ∅) = Returned
  /\ Evaluator64.update_all "energy_within_threshold"
       [Evaluator64.StatDict (Number.Int 3) 3;
        Evaluator64.StatDict (Number.Int 1) 2;
        Evaluator64.StatNum (Number.Int 1)] ∅
     = Evaluator64.update_all "energy_within_threshold"
         [Evaluator64.StatDict (Number.Int 1) 2;
          Evaluator64.StatNum (Number.Int 1);
          Evaluator64.StatDict (Number.Int 3) 3] ∅
  /\ (exists sums : list Evaluator64.stat,
        mapM Evaluator64.presum
          [[Evaluator64.StatNum (Number.Int 1);
            Evaluator64.StatDict (Number.Int 3) 3];
           [Evaluator64.StatDict (Number.Int 1) 2]] = Ok sums
        /\ forall order : list Evaluator64.stat,
             order ≡ₚ sums ->
             Evaluator64.update_all "energy_within_threshold" order ∅
             = Evaluator64.update_all "energy_within_threshold"
                 [Evaluator64.StatDict (Number.Int 1) 2;
                  Evaluator64.StatNum (Number.Int 1);
                  Evaluator64.StatDict (Number.Int 3) 3] ∅)
  /\ fst (Evaluator64.update_all "energy_within_threshold"
            [Evaluator64.StatDict (Number.Int 1) 2;
             Evaluator64.StatNum (Number.Int 1);
             Evaluator64.StatDict (Number.Int 3) 3] ∅)
       !! "energy_within_threshold"
     = Some {| Evaluator64.metric := Some 0.8333333333333334%float;
               Evaluator64.total := Number.Int 5;
               Evaluator64.numel := 6 |}.
Proof.
  destruct (update_order_and_grouping_independent "energy_within_threshold"
    [Evaluator64.StatDict (Number.Int 1) 2;
     Evaluator64.StatNum (Number.Int 1);
     Evaluator64.StatDict (Number.Int 3) 3]
    ([Evaluator64.StatNum (Number.Int 1);
      Evaluator64.StatDict (Number.Int 3) 3]
     :: [Evaluator64.StatDict (Number.Int 1) 2] :: nil) ∅)
    as (Hret & Hre & Hsums & Hentry).
  - repeat constructor; by vm_compute.
  - by vm_compute.
  - by repeat constructor.
  - simpl. apply Permutation_sym, Permutation_cons_append.
  - split; [exact Hret|].
    split; [apply Hre, Permutation_cons_append|].
    split; [exact Hsums|].
    rewrite Hentry by discriminate. by vm_compute.
Defined.

(** ** Metric names and dispatch *)

Lemma append_cons c (a b : string) : String c a +:+ b = String c (a +:+ b).
Proof. reflexivity. Qed.

Lemma prefix_spec (p s : string) :
  String.prefix p s = true <-> exists b, s = p +:+ b.
Proof.
  revert s. induction p as [|c p IH]; intros s.
  - split; [intros _; by exists s | intros _; by destruct s].
  - destruct s as [|c' s].
    + split; [discriminate | intros [b Hb]; discriminate].
    + simpl. destruct (Ascii.ascii_dec c c') as [->|Hne].
      * rewrite IH. split; intros [b Hb]; exists b;
          rewrite append_cons in *; congruence.
      * split; [discriminate | intros [b Hb]].
        rewrite append_cons in Hb. congruence.
Qed.
Lemma contains_spec (p s : string) :
  contains p s = true <-> exists a b, s = a +:+ p +:+ b.
Proof.
  induction s as [|c s IH].
  - change (contains p "") with (String.prefix p "" || false).
    rewrite orb_false_r, prefix_spec. split.
    + intros [b Hb]. by exists EmptyString, b.
    + intros (a & b & Hab). destruct a as [|c a]; [by exists b|discriminate].
  - change (contains p (String c s)) with
      (String.prefix p (String c s) || contains p s).
    rewrite orb_true_iff, prefix_spec, IH. split.
    + intros [[b Hb] | (a & b & Hab)].
      * by exists EmptyString, b.
      * exists (String c a), b. by rewrite append_cons, Hab.
    + intros (a & b & Hab). destruct a as [|c' a].
      * left. by exists b.
      * right. exists a, b. rewrite append_cons in Hab. congruence.
Qed.

Lemma seed_dom key (metrics : gmap string metric_record) :
  dom (Evaluator.seed key metrics) = {[key]} ∪ dom metrics.
Proof.
  unfold Evaluator.seed. destruct (metrics !! key) eqn:E.
  - apply (elem_of_dom_2 (D := gset string)) in E. set_solver.
  - by rewrite dom_insert_L.
Qed.

Lemma accumulate_dom key dt dn (metrics : gmap string metric_record) :
  dom (fst (Evaluator.accumulate key dt dn metrics)) ⊆ {[key]} ∪ dom metrics
  /\ dom metrics ⊆ dom (fst (Evaluator.accumulate key dt dn metrics)).
Proof.
  unfold Evaluator.accumulate. destruct (metrics !! key); [|set_solver].
  destruct (decide _); simpl; rewrite dom_insert_L; set_solver.
Qed.

(** Whatever [update] does with [stat], the table it leaves has the old
    keys and [key]. *)
Lemma update_dom key (st : stat) (metrics : gmap string metric_record) :
  dom (fst (Evaluator.update key st metrics)) = {[key]} ∪ dom metrics.
Proof.
  unfold Evaluator.update.
  pose proof (seed_dom key metrics) as Hs.
  destruct st as [dt dn|x| |]; simpl; try done.
  - destruct (accumulate_dom key dt dn (Evaluator.seed key metrics)).
    set_solver.
  - destruct (accumulate_dom key x 1 (Evaluator.seed key metrics)).
    set_solver.
Qed.

Lemma eval_fns_dom (call : caller) (prediction target : batch) p
    (fns : list pyval) :
  forall metrics metrics' : gmap string metric_record,
  Evaluator.eval_fns call prediction target p fns metrics
    = (metrics', Returned) ->
  dom metrics' =
    dom metrics ∪ list_to_set (map (Evaluator.metric_name p)
                                   (omap function_name fns)).
Proof.
  induction fns as [|v rest IH]; intros metrics metrics' H; simpl in *.
  - inversion H. set_solver.
  - destruct v as [|fn|l|d]; try discriminate. simpl.
    destruct (call fn prediction target p) as [res|e]; [|discriminate].
    pose proof (update_dom (Evaluator.metric_name p fn) res metrics) as Hd.
    destruct (Evaluator.update _ res metrics) as [m1 [|e]]; [|discriminate].
    apply IH in H. simpl in Hd. set_solver.
Qed.

Lemma eval_properties_dom (call : caller) (prediction target : batch)
    (target_metrics_ : pyval) (ks : list string) :
  forall metrics metrics' : gmap string metric_record,
  Evaluator.eval_properties call prediction target target_metrics_
    (map PyStr ks) metrics = (metrics', Returned) ->
  dom metrics' =
    dom metrics ∪
    list_to_set
      (flat_map (fun p => map (Evaluator.metric_name p)
                              (functions_of target_metrics_ p)) ks).
Proof.
  induction ks as [|k rest IH]; intros metrics metrics' H; simpl in *.
  - inversion H. set_solver.
  - unfold functions_of at 1.
    destruct (subscript target_metrics_ (PyStr k) ≫= _) as [fns|e];
      [|discriminate].
    destruct (Evaluator.eval_fns call prediction target k fns metrics)
      as [m1 [|e]] eqn:E; [|discriminate].
    apply eval_fns_dom in E. apply IH in H.
    rewrite list_to_set_app_L. set_solver.
Qed.

Lemma dispatched_names (target_metrics_ : pyval) (ks : list string) :
  map (fun pf => Evaluator.metric_name pf.1 pf.2)
      (flat_map (fun p => map (pair p) (functions_of target_metrics_ p)) ks)
  = flat_map (fun p => map (Evaluator.metric_name p)
                           (functions_of target_metrics_ p)) ks.
Proof.
  induction ks as [|k rest IH]; simpl; [done|].
  rewrite map_app, IH. f_equal.
  by rewrite map_map.
Qed.

Lemma eval_dom (call : caller) (self : Evaluator.evaluator)
    (prediction target : batch)
    (prev metrics : gmap string metric_record) :
  Evaluator.eval call self prediction target prev = (metrics, Returned) ->
  dom metrics =
    dom prev ∪
    list_to_set (map (fun pf => Evaluator.metric_name pf.1 pf.2)
                     (dispatched (Evaluator.target_metrics self))).
Proof.
  unfold Evaluator.eval, dispatched.
  destruct (Evaluator.target_metrics self) as [|s|l|d] eqn:Etm; simpl.
  - discriminate.
  - destruct (list_ascii_of_string s) as [|c cs]; simpl.
    + intros H. inversion H. set_solver.
    + discriminate.
  - destruct l as [|v l]; simpl.
    + intros H. inversion H. set_solver.
    + discriminate.
  - rewrite <- map_map. intros H.
    apply eval_properties_dom in H. by rewrite dispatched_names.
Qed.

(** C5: [Evaluator("is2re").eval] raises [TypeError] on every prediction,
    target and prior table, before any metric function is called: the
    ["is2re"] entry of [task_metrics] has its function list directly under
    ["metrics"], so the loop takes ["metrics"] for a target property and
    subscripts the list with the string ["metrics"].  The table is left as
    it was passed in. *)
Theorem eval_is2re_raises_type_error (call : caller) (eval_metrics : pyval)
    (prediction target : batch) (prev : gmap string metric_record) :
  Evaluator.eval call (Evaluator.init (Some "is2re") eval_metrics)
    prediction target prev = (prev, Raised TypeError).
Proof. reflexivity. Qed.

Ltac qc_compute :=
  vm_compute;
  repeat first [ reflexivity | apply Qc_is_canon; reflexivity | f_equal ].

(** C4, the code at the failing input: two calls [eval(prediction, target)]
    with the same arguments and the prior table omitted, the first one made
    when the default dict is still empty.  Both return, the first with
    [{total: 1, numel: 1}] and the second with [{total: 2, numel: 2}] under
    the same name: the second result carries the first call's batch, because
    both calls worked on the one default dict. *)
Theorem eval_default_accumulates_across_calls (others : caller) :
  let first :=
    Evaluator.eval_default (Evaluator.module_call others) energy_evaluator
      unit_energy_batch unit_energy_batch ∅ in
  let second :=
    Evaluator.eval_default (Evaluator.module_call others) energy_evaluator
      unit_energy_batch unit_energy_batch (snd first) in
  snd (fst first) = Returned
  /\ snd (fst second) = Returned
  /\ fst (fst first) !! "energy_within_threshold" = Some (merged 1 1)
  /\ fst (fst second) !! "energy_within_threshold" = Some (merged 2 2)
  /\ fst (fst first) ≠ fst (fst second).
Proof.
  intros first second.
  assert (H1 : fst (fst first) !! "energy_within_threshold"
               = Some (merged 1 1)) by qc_compute.
  assert (H2 : fst (fst second) !! "energy_within_threshold"
               = Some (merged 2 2)) by qc_compute.
  split; [reflexivity|]. split; [reflexivity|].
  split; [exact H1|]. split; [exact H2|].
  intros Heq. rewrite Heq, H2 in H1. discriminate H1.
Qed.

Lemma update_returned_table key (st : stat)
    (m m' : gmap string metric_record) :
  Evaluator.update key st m = (m', Returned) ->
  m' = <[key := merge_into (current key m) st]> m.
Proof.
  unfold Evaluator.update, current.
  assert (Hacc : forall dt dn,
    Evaluator.accumulate key dt dn (Evaluator.seed key m) = (m', Returned) ->
    m' = <[key := merged (total (default Evaluator.zero_record (m !! key)) + dt)
                         (numel (default Evaluator.zero_record (m !! key)) + dn)]> m).
  { intros dt dn. unfold Evaluator.accumulate.
    destruct (m !! key) as [r|] eqn:E; simpl.
    - rewrite (seed_present _ _ _ E), E.
      destruct (decide _); [discriminate|]. by intros [= <-].
    - rewrite (seed_absent _ _ E), lookup_insert_eq. simpl.
      destruct (decide _); [discriminate|]. intros [= <-].
      by rewrite insert_insert_eq. }
  destruct st as [dt dn|x| |]; simpl.
  - apply Hacc.
  - apply Hacc.
  - discriminate.
  - intros [= <-]. unfold Evaluator.seed.
    destruct (m !! key) as [r|] eqn:E; simpl; [|done].
    symmetry. by apply insert_id.
Qed.

Lemma results_under_app call prediction target k (ps qs : list (string * string)) :
  results_under call prediction target k (ps ++ qs)
  = results_under call prediction target k ps
    ++ results_under call prediction target k qs.
Proof. apply omap_app. Qed.

Lemma current_stored k (rs : list stat) (m m1 : gmap string metric_record) :
  m1 !! k = stored k rs m ->
  current k m1 = foldl merge_into (current k m) rs.
Proof.
  unfold current at 1. intros ->. destruct rs as [|r rs]; reflexivity.
Qed.

Lemma stored_app k (rs1 rs2 : list stat) (m m1 : gmap string metric_record) :
  m1 !! k = stored k rs1 m ->
  stored k rs2 m1 = stored k (rs1 ++ rs2) m.
Proof.
  intros H1. destruct rs2 as [|r rs2].
  - rewrite app_nil_r. exact H1.
  - change (stored k (r :: rs2) m1)
      with (Some (foldl merge_into (current k m1) (r :: rs2))).
    rewrite (current_stored k rs1 m m1 H1), <- foldl_app.
    destruct rs1; reflexivity.
Qed.

Lemma eval_fns_stored (call : caller) (prediction target : batch) p
    (fns : list pyval) :
  forall m m' : gmap string metric_record,
  Evaluator.eval_fns call prediction target p fns m = (m', Returned) ->
  Forall (fun pf => exists res, call pf.2 prediction target pf.1 = Ok res)
         (map (pair p) (omap function_name fns))
  /\ forall k,
       m' !! k =
         stored k (results_under call prediction target k
                     (map (pair p) (omap function_name fns))) m.
Proof.
  induction fns as [|v rest IH]; intros m m' H; simpl in H.
  - inversion H; subst. split; [constructor | done].
  - destruct v as [|fn|l|d]; try discriminate.
    destruct (call fn prediction target p) as [res|e] eqn:Ecall;
      [|discriminate].
    destruct (Evaluator.update (Evaluator.metric_name p fn) res m)
      as [m1 [|e]] eqn:Eu; [|discriminate].
    apply update_returned_table in Eu.
    destruct (IH _ _ H) as [Hall Hk]. split.
    + simpl. constructor; [by exists res | exact Hall].
    + intros k. rewrite Hk.
      change (map (pair p) (omap function_name (PyStr fn :: rest)))
        with ([(p, fn)] ++ map (pair p) (omap function_name rest)).
      rewrite results_under_app. apply stored_app.
      unfold results_under. simpl. rewrite Ecall.
      destruct (decide (Evaluator.metric_name p fn = k)) as [<-|Hne]; simpl.
      * rewrite Eu. apply lookup_insert_eq.
      * rewrite Eu. by apply lookup_insert_ne.
Qed.

Lemma eval_properties_stored (call : caller) (prediction target : batch)
    (target_metrics_ : pyval) (ks : list string) :
  forall m m' : gmap string metric_record,
  Evaluator.eval_properties call prediction target target_metrics_
    (map PyStr ks) m = (m', Returned) ->
  let pairs :=
    flat_map (fun p => map (pair p) (functions_of target_metrics_ p)) ks in
  Forall (fun pf => exists res, call pf.2 prediction target pf.1 = Ok res)
         pairs
  /\ forall k,
       m' !! k = stored k (results_under call prediction target k pairs) m.
Proof.
  induction ks as [|p rest IH]; intros m m' H; simpl in H.
  - inversion H; subst. split; [constructor | done].
  - cbn zeta. simpl. unfold functions_of at 1 3.
    destruct (subscript target_metrics_ (PyStr p) ≫= _) as [fns|e];
      [|discriminate].
    destruct (Evaluator.eval_fns call prediction target p fns m)
      as [m1 [|e]] eqn:E; [|discriminate].
    apply eval_fns_stored in E as [Hall1 Hk1].
    destruct (IH _ _ H) as [Hall2 Hk2]. split.
    + apply Forall_app. split; [exact Hall1 | exact Hall2].
    + intros k. rewrite Hk2, results_under_app. apply stored_app, Hk1.
Qed.

Lemma eval_stored (call : caller) (self : Evaluator.evaluator)
    (prediction target : batch) (prev metrics : gmap string metric_record) :
  Evaluator.eval call self prediction target prev = (metrics, Returned) ->
  Forall (fun pf => exists res, call pf.2 prediction target pf.1 = Ok res)
         (dispatched (Evaluator.target_metrics self))
  /\ forall k,
       metrics !! k =
         stored k (results_under call prediction target k
                     (dispatched (Evaluator.target_metrics self))) prev.
Proof.
  unfold Evaluator.eval, dispatched.
  destruct (Evaluator.target_metrics self) as [|s|l|d] eqn:Etm; simpl.
  - discriminate.
  - destruct (list_ascii_of_string s) as [|c cs]; simpl.
    + intros H. inversion H. split; [constructor | done].
    + discriminate.
  - destruct l as [|v l]; simpl.
    + intros H. inversion H. split; [constructor | done].
    + discriminate.
  - rewrite <- map_map. intros H.
    by apply eval_properties_stored in H.
Qed.

Lemma omap_function_name (fns : list string) :
  omap function_name (map PyStr fns) = fns.
Proof.
  induction fns as [|fn fns IH]; [done|].
  change (fn :: omap function_name (map PyStr fns) = fn :: fns).
  by rewrite IH.
Qed.

Lemma assoc_In {A} (k : string) (d : list (string * A)) :
  In k (map fst d) -> exists v, assoc k d = Some v /\ In (k, v) d.
Proof.
  induction d as [|[k' v'] d IH]; simpl; [done|]. intros Hin.
  destruct (decide (k = k')) as [->|Hne].
  - exists v'. split; [done | by left].
  - destruct Hin as [Heq|Hin]; [congruence|].
    destruct (IH Hin) as (v & Hv & Hd). exists v. split; [done | by right].
Qed.

Lemma well_formed_functions (d : list (string * pyval)) (p : string) :
  well_formed (PyDict d) ->
  In p (map fst d) ->
  (entry ← subscript (PyDict d) (PyStr p);
   fns ← subscript entry (PyStr "metrics");
   iterate fns) = Ok (map PyStr (functions_of (PyDict d) p)).
Proof.
  intros Hwf Hin. destruct (assoc_In p d Hin) as (v & Hv & Hd).
  simpl in Hwf. rewrite Forall_forall in Hwf.
  destruct (Hwf _ Hd) as [fns Hfns]. simpl in Hfns. subst v.
  unfold functions_of. simpl. rewrite Hv. simpl.
  by rewrite omap_function_name.
Qed.

Lemma update_counted_settled key (u : stat) (m : gmap string metric_record) :
  counted u ->
  (forall k, (0 <= numel (current k m))%Z) ->
  exists m',
    Evaluator.update key u m = (m', Returned)
    /\ forall k, (0 <= numel (current k m'))%Z.
Proof.
  intros Hu Hm. eexists. split; [by apply update_counted|].
  intros k. apply counted_numel_pos in Hu. specialize (Hm key) as Hkey.
  unfold current. destruct (decide (k = key)) as [->|Hne].
  - rewrite lookup_insert_eq. simpl. unfold current in Hkey. lia.
  - rewrite lookup_insert_ne by done. apply Hm.
Qed.

Lemma eval_fns_returns (call : caller) (prediction target : batch) p
    (fns : list string) :
  forall m : gmap string metric_record,
  Forall (fun fn => exists res,
            call fn prediction target p = Ok res /\ counted res) fns ->
  (forall k, (0 <= numel (current k m))%Z) ->
  exists m',
    Evaluator.eval_fns call prediction target p (map PyStr fns) m
      = (m', Returned)
    /\ forall k, (0 <= numel (current k m'))%Z.
Proof.
  induction fns as [|fn rest IH]; intros m Hall Hm; simpl.
  - by exists m.
  - inversion Hall as [|? ? (res & Hcall & Hres) Hrest]; subst.
    rewrite Hcall.
    destruct (update_counted_settled (Evaluator.metric_name p fn) res m
                Hres Hm) as (m1 & Hu & Hm1).
    rewrite Hu. by apply IH.
Qed.

Lemma eval_properties_returns (call : caller) (prediction target : batch)
    (d : list (string * pyval)) (ks : list string) :
  forall m : gmap string metric_record,
  well_formed (PyDict d) ->
  Forall (fun p => In p (map fst d)) ks ->
  Forall (fun pf => exists res,
            call pf.2 prediction target pf.1 = Ok res /\ counted res)
         (flat_map (fun p => map (pair p) (functions_of (PyDict d) p)) ks) ->
  (forall k, (0 <= numel (current k m))%Z) ->
  exists m',
    Evaluator.eval_properties call prediction target (PyDict d)
      (map PyStr ks) m = (m', Returned)
    /\ forall k, (0 <= numel (current k m'))%Z.
Proof.
  induction ks as [|p rest IH]; intros m Hwf Hks Hall Hm.
  - by exists m.
  - inversion Hks as [|? ? Hp Hrest]; subst.
    cbn [flat_map] in Hall. apply Forall_app in Hall as [Hall1 Hall2].
    cbn [map Evaluator.eval_properties].
    rewrite (well_formed_functions d p Hwf Hp).
    destruct (eval_fns_returns call prediction target p
                (functions_of (PyDict d) p) m) as (m1 & E & Hm1);
      [|done|].
    { rewrite Forall_forall in *. intros fn Hfn.
      apply (Hall1 (p, fn)). apply in_map_iff. by exists fn. }
    rewrite E. by apply IH.
Qed.

Lemma eval_returns (call : caller) (self : Evaluator.evaluator)
    (prediction target : batch) (prev : gmap string metric_record) :
  well_formed (Evaluator.target_metrics self) ->
  Forall (fun pf => exists res,
            call pf.2 prediction target pf.1 = Ok res /\ counted res)
         (dispatched (Evaluator.target_metrics self)) ->
  (forall k, (0 <= numel (current k prev))%Z) ->
  exists metrics,
    Evaluator.eval call self prediction target prev = (metrics, Returned).
Proof.
  unfold Evaluator.eval, dispatched.
  destruct (Evaluator.target_metrics self) as [|s|l|d]; try done.
  intros Hwf Hall Hprev. cbn [iterate]. rewrite <- map_map.
  destruct (eval_properties_returns call prediction target d (map fst d)
              prev Hwf) as (m' & E & _); [|done|done|by exists m'].
  by apply Forall_forall.
Qed.

(** C9: the key a dispatched result is stored under, and what is stored
    there.  [contains p fn] is the substring test; the name is [fn] itself
    when [p] occurs in [fn] and ["{p}_{fn}"] otherwise.  [eval] returns when
    the specification is well formed, every dispatched function returns a
    number or a record over at least one element, and no prior entry has a
    negative [numel].  Whenever [eval] returns, every dispatched function
    has returned, and the entry under every name [k] is the prior entry (or
    the zero record) with the results of exactly the pairs named [k] merged
    in, in dispatch order; a name that no pair has keeps its prior entry or
    stays absent.  So the table's keys are the prior keys and the names of
    all dispatched pairs, and a specification of one pair makes [eval] do
    one [update] under that pair's name. *)
Theorem eval_stores_under_metric_name (call : caller)
    (self : Evaluator.evaluator) (prediction target : batch)
    (prev : gmap string metric_record) :
  (forall p fn : string,
      (contains p fn = true <-> exists a b, fn = a +:+ p +:+ b)
      /\ ((exists a b, fn = a +:+ p +:+ b) ->
          Evaluator.metric_name p fn = fn)
      /\ (~ (exists a b, fn = a +:+ p +:+ b) ->
          Evaluator.metric_name p fn = p +:+ "_" +:+ fn))
  /\ (well_formed (Evaluator.target_metrics self) ->
      Forall (fun pf => exists res,
                call pf.2 prediction target pf.1 = Ok res /\ counted res)
             (dispatched (Evaluator.target_metrics self)) ->
      (forall k, (0 <= numel (current k prev))%Z) ->
      exists metrics : gmap string metric_record,
        Evaluator.eval call self prediction target prev
          = (metrics, Returned))
  /\ (forall metrics : gmap string metric_record,
        Evaluator.eval call self prediction target prev
          = (metrics, Returned) ->
        Forall (fun pf => exists res,
                  call pf.2 prediction target pf.1 = Ok res)
               (dispatched (Evaluator.target_metrics self))
        /\ (forall k : string,
              metrics !! k =
                stored k
                  (results_under call prediction target k
                     (dispatched (Evaluator.target_metrics self)))
                  prev)
        /\ dom metrics =
             dom prev ∪
             list_to_set (map (fun pf => Evaluator.metric_name pf.1 pf.2)
                              (dispatched (Evaluator.target_metrics self))))
  /\ (forall (p fn : string) (res : stat),
        call fn prediction target p = Ok res ->
        Evaluator.eval call
          (Evaluator.init None (PyDict [(p, Evaluator.metrics_entry [fn])]))
          prediction target prev
        = Evaluator.update (Evaluator.metric_name p fn) res prev).
Proof.
  split; [|split; [|split]].
  - intros p fn. split; [apply contains_spec|].
    unfold Evaluator.metric_name. split; intros H.
    + apply contains_spec in H. by rewrite H.
    + destruct (contains p fn) eqn:E; [|done].
      apply contains_spec in E. contradiction.
  - apply eval_returns.
  - intros metrics H.
    destruct (eval_stored _ _ _ _ _ _ H) as [Hall Hk].
    split; [exact Hall|]. split; [exact Hk|].
    exact (eval_dom _ _ _ _ _ _ H).
  - intros p fn res Hcall. unfold Evaluator.eval. simpl.
    destruct (decide (p = p)) as [_|Hne]; [|contradiction]. simpl.
    rewrite Hcall.
    by destruct (Evaluator.update _ res prev) as [m [|e]].
Qed.

Lemma eval_metric_name_witness :
  Evaluator.metric_name "energy" "energy_within_threshold"
    = "energy_within_threshold"
  /\ Evaluator.metric_name "forces" "energy_force_within_threshold"
     = "forces_energy_force_within_threshold"
  /\ exists metrics : gmap string metric_record,
       Evaluator.eval (Evaluator.module_call no_others) threshold_evaluator
         two_atom_batch two_atom_batch ∅ = (metrics, Returned)
       /\ metrics !! "energy_within_threshold" = Some (merged 1 1)
       /\ metrics !! "forces_energy_force_within_threshold"
          = Some (merged 1 1)
       /\ metrics !! "energy_force_within_threshold" = None
       /\ dom metrics =
            dom (∅ : gmap string metric_record) ∪
            list_to_set ["energy_within_threshold";
                         "forces_energy_force_within_threshold"].
Proof.
  split; [reflexivity|]. split; [reflexivity|].
  destruct (eval_stores_under_metric_name (Evaluator.module_call no_others)
              threshold_evaluator two_atom_batch two_atom_batch ∅)
    as (_ & Hreturns & Hstored & _).
  destruct Hreturns as [metrics E].
  - simpl. repeat (constructor; [by eexists|]). constructor.
  - simpl.
    repeat (constructor; [eexists; split; [reflexivity | simpl; lia]|]).
    constructor.
  - intros k. unfold current. rewrite lookup_empty. simpl. lia.
  - exists metrics. split; [exact E|].
    destruct (Hstored metrics E) as (_ & Hk & Hdom).
    split; [rewrite Hk; qc_compute|].
    split; [rewrite Hk; qc_compute|].
    split; [rewrite Hk; reflexivity|]. exact Hdom.
Defined.

(** ** Minimum-image displacement *)

Ltac qc_to_q :=
  unfold Qclt, Qcle, Qcminus, Qcplus, Qcopp, Qcmult, Q2Qc in *;
  simpl this in *;
  rewrite ?Qred_correct in *.

Lemma mod1_range (x : Qc) : 0 <= mod1 x /\ mod1 x < 1.
Proof.
  unfold mod1.
  pose proof (Qfloor_le x) as Hlo. pose proof (Qlt_floor x) as Hhi.
  rewrite inject_Z_plus in Hhi. change (inject_Z 1) with 1%Q in Hhi.
  split; qc_to_q; simpl in *;
    generalize dependent (inject_Z (Qfloor x)); generalize (this x);
    intros; lra.
Qed.

Lemma shift_range (y : Qc) : 0 <= y -> y < 1 -> minimum_image (shift y).
Proof.
  intros H0 H1. unfold minimum_image, shift.
  destruct (decide (one_half < y)) as [Hy|Hy].
  - split; qc_to_q; simpl in *; lra.
  - apply Qcnot_lt_le in Hy. split; qc_to_q; simpl in *; lra.
Qed.

Lemma wrapped_range (x : Qc) : minimum_image (wrapped x).
Proof.
  unfold wrapped. destruct (mod1_range (mod1 x)). by apply shift_range.
Qed.

Lemma solve_identity (d : vec3) : solve_column (transpose identity) d = d.
Proof.
  destruct d as [[x y] z].
  unfold solve_column, identity, transpose, replace_column, det.
  f_equal; [f_equal|]; field; discriminate.
Qed.

Lemma vecmat_identity (d : vec3) : vecmat d identity = d.
Proof.
  destruct d as [[x y] z]. unfold vecmat, identity.
  f_equal; [f_equal|]; ring.
Qed.

Lemma linalg_solve_identity (pos_diff : list vec3) :
  linalg_solve_T identity pos_diff = Ok pos_diff.
Proof.
  unfold linalg_solve_T.
  destruct (decide (det (transpose identity) = 0)) as [Hz|_].
  - vm_compute in Hz. discriminate Hz.
  - f_equal. rewrite <- (map_id pos_diff) at 2.
    apply map_ext. intros d. apply solve_identity.
Qed.

Lemma wrap_periodic_all (fractional : list vec3) :
  wrap_periodic 0 [true; true; true] fractional =
    Ok (map (fun f => mod_column 2 (mod_column 2 (mod_column 1
              (mod_column 1 (mod_column 0 (mod_column 0 f))))))
            fractional).
Proof.
  cbn [wrap_periodic]. rewrite !decide_True by lia.
  by rewrite !map_map.
Qed.

(** In the identity cell with all three axes periodic, [min_diff] wraps
    every component of the raw difference. *)
Lemma min_diff_identity_periodic (pred_pos dft_pos : list vec3) :
  min_diff pred_pos dft_pos identity [true; true; true] =
    (pos_diff ← broadcast ValueError vsub pred_pos dft_pos;
     Ok (map (vmap wrapped) pos_diff)).
Proof.
  unfold min_diff.
  destruct (broadcast ValueError vsub pred_pos dft_pos) as [pos_diff|e];
    [|reflexivity].
  cbn [mbind result_bind]. rewrite linalg_solve_identity.
  cbn [mbind result_bind]. rewrite wrap_periodic_all.
  cbn [mbind result_bind]. f_equal. rewrite !map_map. apply map_ext. intros [[x y] z].
  rewrite vecmat_identity. reflexivity.
Qed.

Lemma vmap_components (f : Qc -> Qc) (P : Qc -> Prop) (v : vec3) :
  (forall x, P (f x)) -> Forall P (components (vmap f v)).
Proof. destruct v as [[x y] z]. simpl. intros H. by repeat constructor. Qed.

(** C2, amended: in the identity cell with all three axes periodic,
    [min_diff] returns for position arrays of equal length, one row per
    atom, and every component of every row it returns lies above -0.5 and at
    most at 0.5: the interval is open at -0.5 and closed at 0.5.  For
    pred = [0.9, 0, 0] and target = [0, 0, 0] the row is [-0.1, 0, 0]. *)
Theorem min_diff_identity_minimum_image (pred_pos dft_pos : list vec3) :
  (length pred_pos = length dft_pos ->
   exists out,
     min_diff pred_pos dft_pos identity [true; true; true] = Ok out
     /\ length out = length pred_pos)
  /\ (forall out,
        min_diff pred_pos dft_pos identity [true; true; true] = Ok out ->
        Forall (fun v => Forall minimum_image (components v)) out)
  /\ min_diff [(Q2Qc (9 # 10), 0, 0)] [(0, 0, 0)] identity
       [true; true; true] = Ok [(Q2Qc (-1 # 10), 0, 0)].
Proof.
  rewrite min_diff_identity_periodic. split; [|split].
  - intros Hlen. unfold broadcast. rewrite decide_True by done.
    eexists. split; [reflexivity|].
    rewrite length_map, length_zip_with. lia.
  - intros out.
    destruct (broadcast ValueError vsub pred_pos dft_pos) as [pos_diff|e];
      [|discriminate].
    intros H. inversion H; subst. apply Forall_map, Forall_forall.
    intros v _. apply vmap_components, wrapped_range.
  - qc_compute.
Qed.

(** C2 as stated fails at the upper end: a difference of exactly 0.5 is left
    at 0.5 (the shift tests [> 0.5]), and 0.5 is not below 0.5. *)
Lemma min_diff_identity_reaches_one_half :
  min_diff [(one_half, 0, 0)] [(0, 0, 0)] identity [true; true; true]
    = Ok [(one_half, 0, 0)]
  /\ ~ (one_half < one_half).
Proof.
  split; [qc_compute|]. intros H. discriminate H.
Qed.

Lemma min_diff_identity_witness :
  exists out,
    min_diff [(Q2Qc (9 # 10), 0, 0); (one_half, 1, 0)]
             [(0, 0, 0); (0, 0, 0)] identity [true; true; true] = Ok out
    /\ length out = 2%nat.
Proof.
  exact (proj1 (min_diff_identity_minimum_image
    [(Q2Qc (9 # 10), 0, 0); (one_half, 1, 0)]
    [(0, 0, 0); (0, 0, 0)]) eq_refl).
Defined.

(** C3, the code at the failing input: with no periodic axis the modulo is
    skipped, but the shift by one cell is applied to every entry above 0.5
    all the same.  In the identity cell the result is the raw difference with
    [shift] applied to each component; the difference [0.9, 0, 0] comes back
    as [-0.1, 0, 0]. *)
Theorem min_diff_shifts_non_periodic_axes (pred_pos dft_pos : list vec3) :
  min_diff pred_pos dft_pos identity [false; false; false] =
    (pos_diff ← broadcast ValueError vsub pred_pos dft_pos;
     Ok (map (vmap shift) pos_diff))
  /\ min_diff [(Q2Qc (9 # 10), 0, 0)] [(0, 0, 0)] identity
       [false; false; false] = Ok [(Q2Qc (-1 # 10), 0, 0)]
  /\ vsub (Q2Qc (9 # 10), 0, 0) (0, 0, 0) = (Q2Qc (9 # 10), 0, 0).
Proof.
  split; [|split; qc_compute].
  unfold min_diff.
  destruct (broadcast ValueError vsub pred_pos dft_pos) as [pos_diff|e];
    [|reflexivity].
  cbn [mbind result_bind]. rewrite linalg_solve_identity.
  cbn [mbind result_bind wrap_periodic]. f_equal.
  rewrite map_map. apply map_ext. intros v. apply vecmat_identity.
Qed.

(** ** Normalizer *)

Lemma map_as_zip_with (f : Qc -> Qc -> Qc) (y : Qc) (xs : list Qc) :
  map (fun x => f x y) xs = zip_with f xs (replicate (length xs) y).
Proof. induction xs as [|x xs IH]; simpl; [done|]. by rewrite IH. Qed.

Lemma broadcast_same_length {A B C} e (f : A -> B -> C)
    (a : list A) (b : list B) :
  length a = length b -> broadcast e f a b = Ok (zip_with f a b).
Proof. intros H. unfold broadcast. by rewrite decide_True. Qed.

Lemma mapM_rows (f : Qc -> Qc -> Qc) (ys : list Qc) (rows : list (list Qc)) :
  Forall (fun row => length row = length ys) rows ->
  mapM (fun row => broadcast RuntimeError f row ys) rows
    = Ok (map (fun row => zip_with f row ys) rows).
Proof.
  induction 1 as [|row rows Hrow _ IH]; [reflexivity|].
  cbn [mapM]. rewrite broadcast_same_length by done.
  cbn [mbind result_bind]. rewrite IH. reflexivity.
Qed.

Lemma along_length_vector (xs : list Qc) (c : Normalizer.tensor) :
  per_channel (Normalizer.Vector xs) c ->
  length (along c (length xs)) = length xs.
Proof.
  destruct c as [y|ys|n m]; simpl; intros H; [|done|done].
  by rewrite length_replicate.
Qed.

Lemma along_length_row (cols : nat) (rows : list (list Qc))
    (c : Normalizer.tensor) (row : list Qc) :
  per_channel (Normalizer.Matrix cols rows) c ->
  In row rows ->
  length (along c (length row)) = length row.
Proof.
  destruct c as [y|ys|n m]; simpl; intros H Hin; [| |done].
  - by rewrite length_replicate.
  - destruct H as [-> H]. rewrite Forall_forall in H. symmetry. by apply H.
Qed.

Lemma elementwise_vector (f : Qc -> Qc -> Qc) (xs : list Qc)
    (c : Normalizer.tensor) :
  per_channel (Normalizer.Vector xs) c ->
  Normalizer.elementwise f (Normalizer.Vector xs) c =
    Ok (Normalizer.Vector (zip_with f xs (along c (length xs)))).
Proof.
  destruct c as [y|ys|n m]; simpl; intros H; [| |done].
  - by rewrite map_as_zip_with.
  - by rewrite broadcast_same_length.
Qed.

Lemma broadcast_size_same (n : nat) : Normalizer.broadcast_size n n = Ok n.
Proof. unfold Normalizer.broadcast_size. by rewrite decide_True. Qed.

Lemma elementwise_matrix (f : Qc -> Qc -> Qc) (cols : nat)
    (rows : list (list Qc)) (c : Normalizer.tensor) :
  per_channel (Normalizer.Matrix cols rows) c ->
  Normalizer.elementwise f (Normalizer.Matrix cols rows) c =
    Ok (Normalizer.Matrix cols
          (map (fun row => zip_with f row (along c (length row))) rows)).
Proof.
  destruct c as [y|ys|n m]; simpl; intros H; [| |done].
  - do 2 f_equal. apply map_ext. intros row. apply map_as_zip_with.
  - destruct H as [-> H]. rewrite broadcast_size_same.
    cbn [mbind result_bind]. by rewrite mapM_rows.
Qed.

(** The arithmetic of the round trip, entry by entry along one row. *)
Lemma round_trip_row (xs ms ss : list Qc) :
  length ms = length xs ->
  length ss = length xs ->
  Forall (fun s => s ≠ 0) ss ->
  zip_with Qcplus
    (zip_with Qcmult (zip_with Qcdiv (zip_with Qcminus xs ms) ss) ss) ms
  = xs.
Proof.
  revert ms ss. induction xs as [|x xs IH]; intros [|m ms] [|s ss];
    simpl; intros Hm Hs Hnz; try done.
  inversion Hnz; subst. f_equal.
  - by field.
  - apply IH; [lia | lia | done].
Qed.

Lemma nonzero_along (s : Normalizer.tensor) (n : nat) :
  nonzero s -> Forall (fun x => x ≠ 0) (along s n).
Proof.
  destruct s as [y|ys|cols m]; simpl; intros H; [|done|constructor].
  by apply Forall_replicate.
Qed.

Lemma zip_with_along_length (f : Qc -> Qc -> Qc) (row : list Qc)
    (c : Normalizer.tensor) :
  length (along c (length row)) = length row ->
  length (zip_with f row (along c (length row))) = length row.
Proof. intros H. rewrite length_zip_with. lia. Qed.

Lemma per_channel_vector_length (xs xs' : list Qc) (c : Normalizer.tensor) :
  length xs' = length xs ->
  per_channel (Normalizer.Vector xs) c ->
  per_channel (Normalizer.Vector xs') c.
Proof. destruct c; simpl; congruence. Qed.

Lemma per_channel_matrix_length (g : list Qc -> list Qc) (cols : nat)
    (rows : list (list Qc)) (c : Normalizer.tensor) :
  Forall (fun row => length (g row) = length row) rows ->
  per_channel (Normalizer.Matrix cols rows) c ->
  per_channel (Normalizer.Matrix cols (map g rows)) c.
Proof.
  destruct c as [y|ys|n m]; simpl; [done| |done].
  intros Hg [Hc H]. split; [done|]. apply Forall_map.
  induction Hg as [|row rows Hrow _ IH]; inversion H; subst;
    constructor; [simpl; congruence | by apply IH].
Qed.

(** One row through [norm] and back through [denorm]. *)
Lemma round_trip_along (m s : Normalizer.tensor) (row : list Qc) :
  nonzero s ->
  length (along m (length row)) = length row ->
  length (along s (length row)) = length row ->
  zip_with Qcplus
    (zip_with Qcmult
       (zip_with Qcdiv (zip_with Qcminus row (along m (length row)))
          (along s (length row)))
       (along s (length row)))
    (along m (length row))
  = row.
Proof.
  intros Hnz Hm Hs. apply round_trip_row; [done | done |].
  by apply nonzero_along.
Qed.

(** C6, amended: over exact arithmetic, for a normalizer whose [std] has no
    zero entry, with [mean] and [std] each a scalar or one value per channel
    of the input's last axis, [norm] returns and [denorm] of its result
    returns the input itself.  A 2-D input with no row is covered: its
    column count is what the statistics are matched against. *)
Theorem denorm_norm_round_trip (n : Normalizer.t) (x : Normalizer.tensor) :
  nonzero (Normalizer.std n) ->
  per_channel x (Normalizer.mean n) ->
  per_channel x (Normalizer.std n) ->
  exists y, Normalizer.norm n x = Ok y /\ Normalizer.denorm n y = Ok x.
Proof.
  destruct n as [m s]. unfold Normalizer.norm, Normalizer.denorm.
  cbn [Normalizer.mean Normalizer.std]. intros Hnz Hm Hs.
  destruct x as [x|xs|cols rows].
  - destruct m as [m|?|? ?], s as [s|?|? ?]; try done. simpl in *.
    eexists. split; [reflexivity|]. simpl. do 2 f_equal. by field.
  - pose proof (along_length_vector _ _ Hm) as Lm.
    pose proof (along_length_vector _ _ Hs) as Ls.
    set (d := zip_with Qcminus xs (along m (length xs))).
    assert (Ld : length d = length xs) by by apply zip_with_along_length.
    set (y := zip_with Qcdiv d (along s (length xs))).
    assert (Ly : length y = length xs).
    { unfold y. rewrite length_zip_with. lia. }
    set (p := zip_with Qcmult y (along s (length xs))).
    assert (Lp : length p = length xs).
    { unfold p. rewrite length_zip_with. lia. }
    exists (Normalizer.Vector y). split.
    + rewrite elementwise_vector by done. cbn [mbind result_bind].
      fold d. rewrite elementwise_vector
        by by apply (per_channel_vector_length xs).
      by rewrite Ld.
    + rewrite elementwise_vector
        by by apply (per_channel_vector_length xs).
      cbn [mbind result_bind]. rewrite Ly. fold p.
      rewrite elementwise_vector
        by by apply (per_channel_vector_length xs).
      rewrite Lp. do 2 f_equal. by apply round_trip_along.
  - assert (Lrow : forall c, per_channel (Normalizer.Matrix cols rows) c ->
      Forall (fun row => length (along c (length row)) = length row) rows).
    { intros c Hc. apply Forall_forall. intros row Hin.
      by apply (along_length_row cols rows). }
    pose proof (Lrow _ Hm) as Lm. pose proof (Lrow _ Hs) as Ls.
    set (g1 := fun row => zip_with Qcminus row (along m (length row))).
    set (g2 := fun row => zip_with Qcdiv row (along s (length row))).
    set (g3 := fun row => zip_with Qcmult row (along s (length row))).
    set (g4 := fun row => zip_with Qcplus row (along m (length row))).
    assert (L1 : Forall (fun row => length (g1 row) = length row) rows).
    { rewrite Forall_forall in *. intros row Hin.
      by apply zip_with_along_length, Lm. }
    assert (L2 : Forall (fun row => length (g2 (g1 row)) = length row) rows).
    { rewrite Forall_forall in *. intros row Hin. unfold g2.
      rewrite length_zip_with, (L1 row Hin), (Ls row Hin). lia. }
    assert (L3 : Forall (fun row => length (g3 (g2 (g1 row))) = length row)
                        rows).
    { rewrite Forall_forall in *. intros row Hin. unfold g3.
      rewrite length_zip_with, (L2 row Hin), (Ls row Hin). lia. }
    exists (Normalizer.Matrix cols (map g2 (map g1 rows))). split.
    + rewrite elementwise_matrix by done. cbn [mbind result_bind].
      fold g1. rewrite elementwise_matrix
        by by apply per_channel_matrix_length.
      reflexivity.
    + rewrite map_map.
      rewrite elementwise_matrix
        by by apply (per_channel_matrix_length (fun row => g2 (g1 row))).
      cbn [mbind result_bind]. fold g3. rewrite map_map.
      rewrite elementwise_matrix
        by by apply (per_channel_matrix_length
                       (fun row => g3 (g2 (g1 row)))).
      fold g4. rewrite map_map. do 2 f_equal.
      rewrite <- (map_id rows) at 2. apply map_ext_Forall.
      rewrite Forall_forall in *. intros row Hin.
      unfold g4, g3, g2, g1.
      rewrite !length_zip_with.
      pose proof (Lm row Hin). pose proof (Ls row Hin).
      replace (length row `min` length (along m (length row)))
        with (length row) by lia.
      replace (length row `min` length (along s (length row)))
        with (length row) by lia.
      replace (length row `min` length (along s (length row)))
        with (length row) by lia.
      by apply round_trip_along.
Qed.

Lemma denorm_norm_round_trip_witness :
  exists y,
    Normalizer.norm two_channel_normalizer two_row_sample = Ok y
    /\ Normalizer.denorm two_channel_normalizer y = Ok two_row_sample.
Proof.
  apply (denorm_norm_round_trip two_channel_normalizer two_row_sample).
  - simpl. repeat constructor; discriminate.
  - simpl. by repeat constructor.
  - simpl. by repeat constructor.
Defined.

(** A tensor with no row still has columns: a 0×3 input against two
    channels raises [RuntimeError], a 0×2 input is normalized to itself. *)
Lemma norm_no_row_checks_columns :
  Normalizer.norm two_channel_normalizer (Normalizer.Matrix 3 [])
    = Raise RuntimeError
  /\ Normalizer.norm two_channel_normalizer (Normalizer.Matrix 2 [])
     = Ok (Normalizer.Matrix 2 []).
Proof. split; reflexivity. Qed.

(** C6 as stated fails in the implementation's floating point.  On float64
    values, with [mean = 1e20] and [std = 1.0] the input [1.0] is normalized
    to [-1e20] and comes back as [0.0]: the error is as large as the input
    itself, which no rounding tolerance covers.  With [mean = 0.1] and
    [std = 3.0] the same input comes back as [0.9999999999999999]. *)
Lemma denorm_norm_float_round_trip_fails :
  (let n := {| Normalizer64.mean := 1e20; Normalizer64.std := 1 |} in
   Normalizer64.norm n 1 = (-1e20)%float
   /\ Normalizer64.denorm n (Normalizer64.norm n 1) = 0%float
   /\ PrimFloat.abs (Normalizer64.denorm n (Normalizer64.norm n 1) - 1)
      = 1%float)
  /\ (let n := {| Normalizer64.mean := 0.1; Normalizer64.std := 3 |} in
      Normalizer64.denorm n (Normalizer64.norm n 1)
      = 0.9999999999999999%float)
  /\ PrimFloat.eqb 0.9999999999999999 1 = false.
Proof. repeat split; by vm_compute. Qed.

(** C7, the code at the failing input: given only a sample tensor,
    [create_normalizer] raises [ValueError].  The branch that takes the
    statistics of the tensor also asks for [mean] and [std] to be given, so
    with no file and no state dict the call raises exactly when [mean] or
    [std] is missing, whether or not a tensor was passed; and when all three
    are given, the explicit [mean] and [std] are replaced by the tensor's. *)
Theorem create_normalizer_tensor_only_raises
    (module_load_state_dict :
       Normalizer.t -> Normalizer.state_dict -> result Normalizer.t)
    (torch_mean torch_std : Normalizer.tensor -> Normalizer.tensor)
    (x : Normalizer.tensor) :
  Normalizer.create_normalizer module_load_state_dict torch_mean torch_std
    None None (Some x) None None = Raise ValueError
  /\ (forall tensor_ mean_ std_,
        Normalizer.create_normalizer module_load_state_dict torch_mean
          torch_std None None tensor_ mean_ std_ = Raise ValueError
        <-> mean_ = None \/ std_ = None)
  /\ (forall m s,
        Normalizer.create_normalizer module_load_state_dict torch_mean
          torch_std None None (Some x) (Some m) (Some s)
        = Ok {| Normalizer.mean := torch_mean x;
                Normalizer.std := torch_std x |}).
Proof.
  split; [reflexivity|]. split; [|reflexivity].
  intros [t|] [m|] [s|]; simpl; split; intros H;
    try discriminate; try reflexivity; auto; by destruct H.
Qed.

(** ** Threshold metrics *)

Lemma Qc_max_lt (a b t : Qc) : Qc_max a b < t <-> a < t /\ b < t.
Proof.
  unfold Qc_max. destruct (decide (a < b)) as [Hab|Hab].
  - split; [|tauto]. intros H. split; [|done]. by transitivity b.
  - apply Qcnot_lt_le in Hab. split; [|tauto].
    intros H. split; [done|]. eapply Qcle_lt_trans; eassumption.
Qed.

Lemma foldl_max_lt (xs : list Qc) :
  forall x t, foldl Qc_max x xs < t <-> x < t /\ Forall (fun c => c < t) xs.
Proof.
  induction xs as [|y ys IH]; intros x t; simpl.
  - split; [intros H; by split | tauto].
  - rewrite IH, Qc_max_lt. split.
    + intros [[Hx Hy] Hys]. split; [done|]. by constructor.
    + intros [Hx Hall]. inversion Hall; subst. tauto.
Qed.

Lemma within_concat (t : Qc) (rows : list vec3) :
  Forall (fun c => c < t) (concat (map components rows)) <-> within t rows.
Proof.
  unfold within. induction rows as [|v rows IH]; simpl.
  - split; constructor.
  - rewrite Forall_app, IH. split.
    + intros [Hv Hrows]. by constructor.
    + intros H. inversion H; subst. tauto.
Qed.

(** [max()] of a slice with at least one row returns, and it is below a
    threshold exactly when every component of the slice is. *)
Lemma tensor_max_within (rows : list vec3) :
  rows ≠ [] ->
  exists m, tensor_max rows = Ok m /\ forall t, m < t <-> within t rows.
Proof.
  intros Hne. unfold tensor_max.
  destruct rows as [|[[x y] z] rows]; [done|].
  change (concat (map components ((x, y, z) :: rows)))
    with (x :: [y; z] ++ concat (map components rows)).
  eexists. split; [reflexivity|]. intros t.
  rewrite foldl_max_lt, <- within_concat.
  change (concat (map components ((x, y, z) :: rows)))
    with (x :: [y; z] ++ concat (map components rows)).
  split.
  - intros [Hx Hrest]. by constructor.
  - intros H. inversion H; subst. tauto.
Qed.

Lemma index_lookup {A} (a : list A) (i : nat) (v : A) :
  a !! i = Some v -> index a i = Ok v.
Proof. intros H. unfold index. by rewrite H. Qed.

(** The loop counts the successful structures: from position [i] of the
    energy errors and row [start_idx] of the force errors on, when every
    structure has an atom and the arrays are long enough. *)
Lemma count_success_spec (natoms_ : list nat) (error_energy : list Qc)
    (error_forces : list vec3) :
  forall i start_idx success : nat,
  Forall (fun n => (0 < n)%nat) natoms_ ->
  (i + length natoms_ <= length error_energy)%nat ->
  (start_idx + sum_list natoms_ <= length error_forces)%nat ->
  count_success natoms_ i start_idx error_energy error_forces success =
    Ok (success +
        length (filter structure_success
                  (zip (drop i error_energy)
                       (segments natoms_ (drop start_idx error_forces)))))%nat.
Proof.
  induction natoms_ as [|n rest IH]; intros i start_idx success Hpos Hi Hs.
  - simpl. rewrite zip_with_nil_r. simpl. f_equal. lia.
  - inversion Hpos as [|? ? Hn Hrest]; subst. simpl in Hi, Hs.
    destruct (lookup_lt_is_Some_2 error_energy i) as [ee Hee]; [lia|].
    cbn [count_success]. rewrite (index_lookup _ _ _ Hee).
    cbn [mbind result_bind].
    rewrite (drop_S _ _ _ Hee). cbn [segments].
    rewrite drop_drop. cbn [zip zip_with]. rewrite filter_cons.
    set (seg := take n (drop start_idx error_forces)).
    assert (Hseg : seg ≠ []).
    { intros Hnil. apply (f_equal length) in Hnil.
      unfold seg in Hnil. rewrite length_take, length_drop in Hnil.
      simpl in Hnil. lia. }
    destruct (tensor_max_within seg Hseg) as (m & Hm & Hlt).
    destruct (decide (ee < e_thresh)) as [He|He].
    + rewrite Hm. cbn [mbind result_bind].
      rewrite IH by (try done; lia).
      destruct (decide (m < f_thresh)) as [Hf|Hf];
        destruct (decide (structure_success (ee, seg))) as [Hss|Hss];
        simpl; try (f_equal; lia).
      * exfalso. apply Hss. split; [done|]. by apply Hlt.
      * exfalso. apply Hf. apply Hlt. by destruct Hss.
    + rewrite IH by (try done; lia).
      destruct (decide (structure_success (ee, seg))) as [Hss|Hss];
        [by destruct Hss|]. reflexivity.
Qed.

(** The loop raises nothing but what a subscript or [max()] raises. *)
Lemma count_success_raises (natoms_ : list nat) (error_energy : list Qc)
    (error_forces : list vec3) :
  forall (i start_idx success : nat) (e : exn),
  count_success natoms_ i start_idx error_energy error_forces success
    = Raise e ->
  e = IndexError \/ e = RuntimeError.
Proof.
  induction natoms_ as [|n rest IH]; intros i start_idx success e;
    cbn [count_success]; [discriminate|].
  unfold index. destruct (error_energy !! i) as [ee|];
    cbn [mbind result_bind]; [|intros [= <-]; by left].
  destruct (decide (ee < e_thresh)); [|apply IH].
  unfold tensor_max.
  destruct (concat (map components (take n (drop start_idx error_forces))));
    cbn [mbind result_bind]; [intros [= <-]; by right | apply IH].
Qed.

Lemma broadcast_raises {A B C} (e e' : exn) (f : A -> B -> C)
    (a : list A) (b : list B) :
  broadcast e f a b = Raise e' -> e' = e.
Proof.
  unfold broadcast. destruct (decide _); [discriminate|].
  destruct a as [|x [|x' a]], b as [|y [|y' b]]; try discriminate;
    by intros [= <-].
Qed.

Lemma getitem_raises {A} (field : option A) (e : exn) :
  getitem field = Raise e -> e = KeyError.
Proof. destruct field; [discriminate | by intros [= <-]]. Qed.

Lemma ratio_raises (success total_ : nat) (e : exn) :
  ratio success total_ = Raise e -> e = ZeroDivisionError.
Proof. unfold ratio. destruct (decide _); [by intros [= <-] | discriminate]. Qed.

(** C8, amended: with the keys present, [energy_force_within_threshold]
    raises [AssertionError] exactly when the atom counts do not sum to the
    number of predicted force rows or there are not as many structures as
    predicted energies.  When the counts agree, the batch has at least one
    structure, every structure has at least one atom and the target's forces
    and energies have the shapes of the predicted ones, it returns
    [{metric: success / structures, total: success, numel: structures}],
    where [success] counts the structures whose absolute energy error is
    below 0.02 and whose atoms all have every absolute force error below
    0.03. *)
Theorem energy_force_within_threshold_spec (prediction target : batch)
    (tn : list nat) (pf : list vec3) (pe : list Qc) :
  natoms target = Some tn ->
  forces prediction = Some pf ->
  energy prediction = Some pe ->
  (energy_force_within_threshold prediction target = Raise AssertionError
   <-> sum_list tn ≠ length pf \/ length tn ≠ length pe)
  /\ (forall (tf : list vec3) (te : list Qc),
        forces target = Some tf ->
        energy target = Some te ->
        length tf = length pf ->
        length te = length pe ->
        sum_list tn = length pf ->
        length tn = length pe ->
        tn ≠ [] ->
        Forall (fun n => (0 < n)%nat) tn ->
        energy_force_within_threshold prediction target =
          Ok {| metric :=
                  Some (Qc_of_nat
                          (success_count tn
                             (map Qcabs (zip_with Qcminus te pe))
                             (map (vmap Qcabs) (zip_with vsub tf pf)))
                        / Qc_of_nat (length tn));
                total :=
                  Qc_of_nat
                    (success_count tn
                       (map Qcabs (zip_with Qcminus te pe))
                       (map (vmap Qcabs) (zip_with vsub tf pf)));
                numel := Z.of_nat (length tn) |}).
Proof.
  intros Hn Hf He. unfold energy_force_within_threshold.
  rewrite Hn, Hf, He. cbn [getitem mbind result_bind]. split.
  - destruct (decide (sum_list tn ≠ length pf)) as [H1|H1]; [by split; auto|].
    destruct (decide (length tn ≠ length pe)) as [H2|H2]; [by split; auto|].
    split; [|intros [?|?]; contradiction].
    intros H. exfalso.
    destruct (getitem (forces target)) as [tf|e] eqn:E1;
      cbn [mbind result_bind] in H;
      [|apply getitem_raises in E1; congruence].
    destruct (broadcast RuntimeError vsub tf pf) as [df|e] eqn:E2;
      cbn [mbind result_bind] in H;
      [|apply broadcast_raises in E2; congruence].
    destruct (getitem (energy target)) as [te|e] eqn:E3;
      cbn [mbind result_bind] in H;
      [|apply getitem_raises in E3; congruence].
    destruct (broadcast RuntimeError Qcminus te pe) as [de|e] eqn:E4;
      cbn [mbind result_bind] in H;
      [|apply broadcast_raises in E4; congruence].
    destruct (count_success tn 0 0 _ _ 0) as [success|e] eqn:E5;
      cbn [mbind result_bind] in H;
      [|apply count_success_raises in E5 as [?|?]; congruence].
    destruct (ratio success (length tn)) as [m|e] eqn:E6;
      cbn [mbind result_bind] in H;
      [discriminate | apply ratio_raises in E6; congruence].
  - intros tf te Htf Hte Ltf Lte Hsum Hlen Hne Hpos.
    rewrite decide_False by (intros H; contradiction).
    rewrite decide_False by (intros H; contradiction).
    rewrite Htf, Hte. cbn [getitem mbind result_bind].
    rewrite !broadcast_same_length by done. cbn [mbind result_bind].
    rewrite count_success_spec; try done.
    + cbn [mbind result_bind]. unfold ratio.
      rewrite decide_False by (destruct tn; [done | simpl; lia]).
      cbn [mbind result_bind]. rewrite !drop_0. reflexivity.
    + rewrite length_map, length_zip_with. simpl. lia.
    + rewrite length_map, length_zip_with. simpl. lia.
Qed.

(** C8 as stated fails: consistent counts do not make the function return.
    A batch of no structure passes both assertions and then divides the
    success count by zero. *)
Lemma energy_force_within_threshold_empty_batch_raises :
  ~ (forall (prediction target : batch) (tn : list nat) (pf : list vec3)
            (pe : list Qc),
        natoms target = Some tn ->
        forces prediction = Some pf ->
        energy prediction = Some pe ->
        sum_list tn = length pf ->
        length tn = length pe ->
        exists r, energy_force_within_threshold prediction target = Ok r).
Proof.
  intros H.
  destruct (H empty_batch empty_batch [] [] [] eq_refl eq_refl eq_refl
              eq_refl eq_refl) as [r Hr].
  vm_compute in Hr. discriminate Hr.
Qed.

Lemma energy_force_within_threshold_witness :
  energy_force_within_threshold prediction_four_rows target_2_3
    = Raise AssertionError
  /\ energy_force_within_threshold prediction_2_3 target_2_3
     = Ok {| metric := Some (Q2Qc (1 # 2)); total := 1; numel := 2 |}.
Proof.
  split.
  - apply (proj1 (energy_force_within_threshold_spec prediction_four_rows
                    target_2_3 [2; 3]%nat _ _ eq_refl eq_refl eq_refl)).
    left. simpl. lia.
  - rewrite (proj2 (energy_force_within_threshold_spec prediction_2_3
                      target_2_3 [2; 3]%nat _ _ eq_refl eq_refl eq_refl)
               _ _ eq_refl eq_refl eq_refl eq_refl eq_refl eq_refl).
    + qc_compute.
    + discriminate.
    + repeat constructor.
Defined.

(** A structure with no atom: the counts agree, and [max()] of the empty
    force slice raises. *)
Lemma energy_force_within_threshold_no_atom_raises :
  energy_force_within_threshold no_atom_batch no_atom_batch
    = Raise RuntimeError.
Proof. reflexivity. Qed.

(** ** Further properties of the same code *)

(** A table never shrinks under [update], whatever [stat] is and however the
    call ends, and the name is a key afterwards. *)
Theorem update_never_shrinks (key : string) (st : stat)
    (metrics : gmap string metric_record) :
  dom metrics ⊆ dom (fst (Evaluator.update key st metrics))
  /\ key ∈ dom (fst (Evaluator.update key st metrics)).
Proof. rewrite update_dom. set_solver. Qed.

(** [Evaluator("s2ef").eval] raises [NameError] on every input: the first
    function of the specification, [energy_mae], is not defined in the
    module.  The table is left as it was passed in. *)
Theorem eval_s2ef_raises_name_error (others : caller) (eval_metrics : pyval)
    (prediction target : batch) (prev : gmap string metric_record) :
  Evaluator.eval (Evaluator.module_call others)
    (Evaluator.init (Some "s2ef") eval_metrics) prediction target prev
  = (prev, Raised NameError).
Proof. reflexivity. Qed.

(** *** The accumulator, one call at a time *)

Lemma update_other_keys (key k : string) (st : stat)
    (metrics : gmap string metric_record) :
  k ≠ key ->
  fst (Evaluator.update key st metrics) !! k = metrics !! k.
Proof.
  intros Hne. unfold Evaluator.update.
  assert (Hseed : Evaluator.seed key metrics !! k = metrics !! k).
  { unfold Evaluator.seed. destruct (metrics !! key); [done|].
    by rewrite lookup_insert_ne. }
  assert (Hacc : forall dt dn,
    fst (Evaluator.accumulate key dt dn (Evaluator.seed key metrics)) !! k
      = metrics !! k).
  { intros dt dn. unfold Evaluator.accumulate.
    destruct (Evaluator.seed key metrics !! key); [|done].
    destruct (decide _); simpl; by rewrite lookup_insert_ne. }
  destruct st; simpl; auto.
Qed.

(** [update] touches no entry but the one under [key], whatever [stat] is
    and however the call ends. *)
Theorem update_frame (key k : string) (st : stat)
    (metrics : gmap string metric_record) :
  k ≠ key ->
  fst (Evaluator.update key st metrics) !! k = metrics !! k.
Proof. apply update_other_keys. Qed.

Lemma update_frame_witness :
  fst (Evaluator.update "forces_mae" (StatNum 1)
         {["energy_mae" := merged 2 1]}) !! "energy_mae"
  = ({["energy_mae" := merged 2 1]} : gmap string metric_record)
      !! "energy_mae".
Proof. by apply update_frame. Defined.

(** Whenever [update] returns after merging a dict or a number, the entry
    under [key] has a non-zero [numel] and [metric = total / numel]. *)
Theorem update_returned_invariant (key : string) (st : stat)
    (metrics metrics' : gmap string metric_record) :
  merges st ->
  Evaluator.update key st metrics = (metrics', Returned) ->
  exists r,
    metrics' !! key = Some r
    /\ numel r ≠ 0%Z
    /\ metric r = Some (total r / Qc_of_Z (numel r))
    /\ total r = total (current key metrics) + added_total st
    /\ numel r = (numel (current key metrics) + added_numel st)%Z.
Proof.
  intros Hst. unfold Evaluator.update.
  assert (Hacc : forall dt dn, dt = added_total st -> dn = added_numel st ->
    Evaluator.accumulate key dt dn (Evaluator.seed key metrics)
      = (metrics', Returned) ->
    exists r,
      metrics' !! key = Some r
      /\ numel r ≠ 0%Z
      /\ metric r = Some (total r / Qc_of_Z (numel r))
      /\ total r = total (current key metrics) + added_total st
      /\ numel r = (numel (current key metrics) + added_numel st)%Z).
  { intros dt dn -> ->. unfold Evaluator.accumulate.
    assert (Hcur : Evaluator.seed key metrics !! key
                   = Some (current key metrics)).
    { unfold Evaluator.seed, current.
      destruct (metrics !! key) eqn:E; simpl; [done|].
      by rewrite lookup_insert_eq. }
    rewrite Hcur. destruct (decide _) as [Hz|Hz]; [discriminate|].
    intros [= <-]. eexists. split; [apply lookup_insert_eq|].
    simpl. by repeat split. }
  destruct st; simpl in *; try contradiction; by apply Hacc.
Qed.

Lemma update_returned_invariant_witness :
  exists r,
    fst (Evaluator.update "energy_mae" (StatDict 1 2) ∅) !! "energy_mae"
      = Some r
    /\ numel r ≠ 0%Z
    /\ metric r = Some (total r / Qc_of_Z (numel r)).
Proof.
  assert (Hret : Evaluator.update "energy_mae" (StatDict 1 2) ∅
                 = (fst (Evaluator.update "energy_mae" (StatDict 1 2) ∅),
                    Returned)) by (vm_compute; reflexivity).
  destruct (update_returned_invariant "energy_mae" (StatDict 1 2) ∅
              (fst (Evaluator.update "energy_mae" (StatDict 1 2) ∅))
              I Hret) as (r & H1 & H2 & H3 & _).
  exists r. by repeat split.
Defined.

(** When the merged [numel] is zero, [update] raises [ZeroDivisionError]
    with [total] and [numel] already overwritten and [metric] left as it
    was: the failed call is visible in the table. *)
Theorem update_zero_division_leaves_partial_entry (key : string) (st : stat)
    (metrics : gmap string metric_record) :
  merges st ->
  (numel (current key metrics) + added_numel st)%Z = 0%Z ->
  Evaluator.update key st metrics =
    (<[key := {| metric := metric (current key metrics);
                 total := total (current key metrics) + added_total st;
                 numel := 0 |}]> metrics,
     Raised ZeroDivisionError).
Proof.
  intros Hst Hz. unfold Evaluator.update.
  assert (Hacc : forall dt dn, dt = added_total st -> dn = added_numel st ->
    Evaluator.accumulate key dt dn (Evaluator.seed key metrics) =
      (<[key := {| metric := metric (current key metrics);
                   total := total (current key metrics) + added_total st;
                   numel := 0 |}]> metrics,
       Raised ZeroDivisionError)).
  { intros dt dn -> ->. unfold Evaluator.accumulate, current in *.
    destruct (metrics !! key) as [r|] eqn:E; simpl in *.
    - rewrite (seed_present _ _ _ E), E.
      rewrite decide_True by done. by rewrite Hz.
    - rewrite (seed_absent _ _ E), lookup_insert_eq. simpl in *.
      rewrite decide_True by done. by rewrite insert_insert_eq, Hz. }
  destruct st; simpl in *; try contradiction; by apply Hacc.
Qed.

Lemma update_zero_division_witness :
  Evaluator.update "forces_mae" (StatDict 0 0) ∅ =
    (<["forces_mae" :=
         {| metric := metric (current "forces_mae" ∅);
            total := total (current "forces_mae" ∅) + 0;
            numel := 0 |}]> ∅,
     Raised ZeroDivisionError).
Proof.
  by apply (update_zero_division_leaves_partial_entry "forces_mae"
              (StatDict 0 0) ∅).
Defined.

(** *** What [eval] leaves alone *)

Lemma eval_fns_keeps_keys (call : caller) (prediction target : batch) p
    (fns : list pyval) :
  forall metrics : gmap string metric_record,
  dom metrics
    ⊆ dom (fst (Evaluator.eval_fns call prediction target p fns metrics)).
Proof.
  induction fns as [|v rest IH]; intros metrics; simpl; [done|].
  destruct v as [|fn|l|d]; simpl; try done.
  destruct (call fn prediction target p) as [res|e]; simpl; [|done].
  pose proof (update_dom (Evaluator.metric_name p fn) res metrics) as Hd.
  destruct (Evaluator.update _ res metrics) as [m1 [|e]]; simpl in *.
  - specialize (IH m1). set_solver.
  - set_solver.
Qed.

Lemma eval_properties_keeps_keys (call : caller) (prediction target : batch)
    (target_metrics_ : pyval) (properties : list pyval) :
  forall metrics : gmap string metric_record,
  dom metrics
    ⊆ dom (fst (Evaluator.eval_properties call prediction target
                  target_metrics_ properties metrics)).
Proof.
  induction properties as [|v rest IH]; intros metrics; simpl; [done|].
  destruct (subscript target_metrics_ v ≫= _) as [fns|e]; [|done].
  destruct v as [|p|l|d]; simpl; try done.
  pose proof (eval_fns_keeps_keys call prediction target p fns metrics) as H.
  destruct (Evaluator.eval_fns call prediction target p fns metrics)
    as [m1 [|e]]; simpl in *; [|done].
  specialize (IH m1). set_solver.
Qed.

Lemma eval_fns_frame (call : caller) (prediction target : batch) p k
    (fns : list pyval) :
  forall metrics : gmap string metric_record,
  (forall fn, In (PyStr fn) fns -> k ≠ Evaluator.metric_name p fn) ->
  fst (Evaluator.eval_fns call prediction target p fns metrics) !! k
    = metrics !! k.
Proof.
  induction fns as [|v rest IH]; intros metrics Hk; simpl; [done|].
  destruct v as [|fn|l|d]; simpl; try done.
  destruct (call fn prediction target p) as [res|e]; simpl; [|done].
  pose proof (update_other_keys (Evaluator.metric_name p fn) k res metrics)
    as Hf.
  destruct (Evaluator.update _ res metrics) as [m1 [|e]]; simpl in *.
  - rewrite IH by (intros fn' Hin; apply Hk; by right).
    apply Hf, Hk. by left.
  - apply Hf, Hk. by left.
Qed.

Lemma functions_of_In (target_metrics_ : pyval) (p fn : string)
    (fns : list pyval) :
  (entry ← subscript target_metrics_ (PyStr p);
   fns ← subscript entry (PyStr "metrics");
   iterate fns) = Ok fns ->
  In (PyStr fn) fns -> In fn (functions_of target_metrics_ p).
Proof.
  intros Hfns Hin. unfold functions_of. rewrite Hfns.
  apply list_elem_of_In, list_elem_of_omap. exists (PyStr fn).
  split; [by apply list_elem_of_In | reflexivity].
Qed.

Lemma eval_properties_frame (call : caller) (prediction target : batch)
    (target_metrics_ : pyval) k (ks : list string) :
  forall metrics : gmap string metric_record,
  (forall p fn, In p ks -> In fn (functions_of target_metrics_ p) ->
                k ≠ Evaluator.metric_name p fn) ->
  fst (Evaluator.eval_properties call prediction target target_metrics_
         (map PyStr ks) metrics) !! k = metrics !! k.
Proof.
  induction ks as [|p rest IH]; intros metrics Hk; simpl; [done|].
  destruct (subscript target_metrics_ (PyStr p) ≫= _) as [fns|e] eqn:Efns;
    [|done].
  pose proof (eval_fns_frame call prediction target p k fns metrics) as H1.
  destruct (Evaluator.eval_fns call prediction target p fns metrics)
    as [m1 [|e]]; simpl in *.
  - rewrite IH by (intros p' fn Hp Hfn; apply Hk; [by right | done]).
    apply H1. intros fn Hin. apply Hk; [by left|].
    by eapply functions_of_In.
  - apply H1. intros fn Hin. apply Hk; [by left|].
    by eapply functions_of_In.
Qed.

(** The table [eval] hands back, however the call ends, still has every
    key of the prior table, and every entry whose key is not the name of a
    dispatched pair is the prior entry. *)
Theorem eval_preserves_prior_entries (call : caller)
    (self : Evaluator.evaluator) (prediction target : batch)
    (prev : gmap string metric_record) :
  dom prev ⊆ dom (fst (Evaluator.eval call self prediction target prev))
  /\ (forall k,
        ~ In k (map (fun pf => Evaluator.metric_name pf.1 pf.2)
                    (dispatched (Evaluator.target_metrics self))) ->
        fst (Evaluator.eval call self prediction target prev) !! k
          = prev !! k).
Proof.
  split.
  - unfold Evaluator.eval.
    destruct (iterate (Evaluator.target_metrics self)); [|done].
    apply eval_properties_keeps_keys.
  - unfold Evaluator.eval, dispatched.
    destruct (Evaluator.target_metrics self) as [|s|l|d] eqn:Etm; simpl.
    + done.
    + destruct (list_ascii_of_string s); simpl; done.
    + destruct l; simpl; done.
    + replace (map (fun kv : string * pyval => PyStr kv.1) d)
        with (map PyStr (map fst d)) by (by rewrite map_map).
      rewrite dispatched_names. intros k Hk.
      apply (eval_properties_frame call prediction target (PyDict d)
               k (map fst d) prev).
      intros p fn Hp Hfn ->. apply Hk. apply in_flat_map.
      exists p. split; [done|]. by apply in_map.
Qed.

(** *** Threshold metrics: range, errors, perfect predictions *)

Lemma Qc_of_nat_this (n : nat) : this (Qc_of_nat n) = inject_Z (Z.of_nat n).
Proof. reflexivity. Qed.

Lemma ratio_unit_interval (k n : nat) :
  (k <= n)%nat -> (0 < n)%nat ->
  0 <= Qc_of_nat k / Qc_of_nat n /\ Qc_of_nat k / Qc_of_nat n <= 1.
Proof.
  intros Hk Hn.
  assert (Hn' : (0 < inject_Z (Z.of_nat n))%Q).
  { change 0%Q with (inject_Z 0). rewrite <- Zlt_Qlt. lia. }
  assert (Hk0 : (0 <= inject_Z (Z.of_nat k))%Q).
  { change 0%Q with (inject_Z 0). rewrite <- Zle_Qle. lia. }
  assert (Hkn : (inject_Z (Z.of_nat k) <= inject_Z (Z.of_nat n))%Q).
  { rewrite <- Zle_Qle. lia. }
  unfold Qcdiv, Qcle, Qcmult, Qcinv, Q2Qc. simpl this.
  rewrite !Qred_correct. split.
  - apply Qle_shift_div_l; [done|]. by rewrite Qmult_0_l.
  - apply Qle_shift_div_r; [done|]. by rewrite Qmult_1_l.
Qed.

Lemma energy_within_threshold_value (prediction target : batch)
    (pe te : list Qc) :
  energy prediction = Some pe ->
  energy target = Some te ->
  length te = length pe ->
  te ≠ [] ->
  energy_within_threshold prediction target =
    Ok {| metric :=
            Some (Qc_of_nat
                    (length (filter (fun ee => ee < e_thresh)
                               (map Qcabs (zip_with Qcminus te pe))))
                  / Qc_of_nat (length te));
          total :=
            Qc_of_nat (length (filter (fun ee => ee < e_thresh)
                                 (map Qcabs (zip_with Qcminus te pe))));
          numel := Z.of_nat (length te) |}.
Proof.
  intros Hp Ht Hlen Hne. unfold energy_within_threshold.
  rewrite Hp, Ht. cbn [getitem mbind result_bind].
  rewrite broadcast_same_length by done. cbn [mbind result_bind].
  unfold ratio. rewrite decide_False by by destruct te.
  reflexivity.
Qed.

(** On a batch with at least one structure and as many target as predicted
    energies, [energy_within_threshold] returns a record with
    [0 <= total <= numel], [numel] the number of structures, and [metric]
    a fraction between 0 and 1. *)
Theorem energy_within_threshold_is_a_fraction (prediction target : batch)
    (pe te : list Qc) :
  energy prediction = Some pe ->
  energy target = Some te ->
  length te = length pe ->
  te ≠ [] ->
  exists (k : nat) (m : Qc),
    energy_within_threshold prediction target =
      Ok {| metric := Some m; total := Qc_of_nat k;
            numel := Z.of_nat (length te) |}
    /\ (k <= length te)%nat
    /\ m = Qc_of_nat k / Qc_of_nat (length te)
    /\ 0 <= m /\ m <= 1.
Proof.
  intros Hp Ht Hlen Hne.
  rewrite (energy_within_threshold_value _ _ _ _ Hp Ht Hlen Hne).
  set (k := length (filter _ _)).
  assert (Hk : (k <= length te)%nat).
  { unfold k. etransitivity; [apply length_filter|].
    rewrite length_map, length_zip_with. lia. }
  exists k, (Qc_of_nat k / Qc_of_nat (length te)).
  split; [reflexivity|]. split; [done|]. split; [reflexivity|].
  apply ratio_unit_interval; [done|]. destruct te; [done | simpl; lia].
Qed.

Lemma energy_within_threshold_fraction_witness :
  exists (k : nat) (m : Qc),
    energy_within_threshold prediction_2_3 target_2_3 =
      Ok {| metric := Some m; total := Qc_of_nat k; numel := 2 |}
    /\ (k <= 2)%nat
    /\ m = Qc_of_nat k / Qc_of_nat 2
    /\ 0 <= m /\ m <= 1.
Proof.
  apply (energy_within_threshold_is_a_fraction prediction_2_3 target_2_3
           _ _ eq_refl eq_refl eq_refl).
  discriminate.
Defined.

(** [energy_within_threshold] raises [KeyError] when either dict has no
    "energy", [ZeroDivisionError] on a batch with no structure, and
    [RuntimeError] when the two energy tensors differ in length and neither
    has length 1. *)
Theorem energy_within_threshold_errors (prediction target : batch) :
  (energy target = None ->
   energy_within_threshold prediction target = Raise KeyError)
  /\ (energy prediction = None ->
      energy_within_threshold prediction target = Raise KeyError)
  /\ (energy target = Some [] -> energy prediction = Some [] ->
      energy_within_threshold prediction target = Raise ZeroDivisionError)
  /\ (forall te pe,
        energy target = Some te -> energy prediction = Some pe ->
        length te ≠ length pe -> length te ≠ 1%nat -> length pe ≠ 1%nat ->
        energy_within_threshold prediction target = Raise RuntimeError).
Proof.
  unfold energy_within_threshold. repeat split.
  - by intros ->.
  - intros ->. by destruct (energy target).
  - by intros -> ->.
  - intros te pe -> -> Hne Ht Hp. cbn [getitem mbind result_bind].
    unfold broadcast. rewrite decide_False by done.
    destruct te as [|? [|? ?]], pe as [|? [|? ?]]; simpl in *; done.
Qed.

Lemma Qc_of_nat_nonzero (n : nat) : (0 < n)%nat -> Qc_of_nat n ≠ 0.
Proof.
  intros Hn Heq. apply (f_equal this) in Heq.
  rewrite Qc_of_nat_this in Heq. simpl in Heq.
  injection Heq as Heq. lia.
Qed.

Lemma Qcabs_diag (x : Qc) : Qcabs (x - x) = 0.
Proof.
  replace (x - x) with (Q2Qc 0) by ring. apply Qc_is_canon. reflexivity.
Qed.

Lemma zip_with_minus_diag (es : list Qc) :
  map Qcabs (zip_with Qcminus es es) = replicate (length es) 0.
Proof.
  induction es as [|x es IH]; simpl; [done|].
  by rewrite Qcabs_diag, IH.
Qed.

Lemma filter_replicate_below (n : nat) :
  filter (fun ee => ee < e_thresh) (replicate n (0 : Qc)) = replicate n 0.
Proof.
  induction n as [|n IH]; simpl; [done|].
  rewrite filter_cons, IH. by rewrite decide_True.
Qed.

(** A prediction whose energies equal the target's is counted as a success
    for every structure: [metric] is 1 and [total = numel]. *)
Theorem energy_within_threshold_perfect (prediction target : batch)
    (es : list Qc) :
  energy prediction = Some es ->
  energy target = Some es ->
  es ≠ [] ->
  energy_within_threshold prediction target =
    Ok {| metric := Some 1;
          total := Qc_of_nat (length es);
          numel := Z.of_nat (length es) |}.
Proof.
  intros Hp Ht Hne.
  rewrite (energy_within_threshold_value _ _ es es Hp Ht eq_refl Hne).
  rewrite zip_with_minus_diag, filter_replicate_below, length_replicate.
  do 2 f_equal. f_equal. field.
  apply Qc_of_nat_nonzero. destruct es; [done | simpl; lia].
Qed.

Lemma energy_within_threshold_perfect_witness :
  energy_within_threshold target_2_3 target_2_3 =
    Ok {| metric := Some 1; total := Qc_of_nat 2; numel := 2 |}.
Proof.
  apply (energy_within_threshold_perfect target_2_3 target_2_3 [1; 2]
           eq_refl eq_refl).
  discriminate.
Defined.

(** *** The joint metric against the energy-only metric *)

Lemma energy_force_within_threshold_value (prediction target : batch)
    (tn : list nat) (pf tf : list vec3) (pe te : list Qc) :
  natoms target = Some tn ->
  forces prediction = Some pf ->
  energy prediction = Some pe ->
  forces target = Some tf ->
  energy target = Some te ->
  length tf = length pf ->
  length te = length pe ->
  sum_list tn = length pf ->
  length tn = length pe ->
  tn ≠ [] ->
  Forall (fun n => (0 < n)%nat) tn ->
  energy_force_within_threshold prediction target =
    Ok {| metric :=
            Some (Qc_of_nat
                    (success_count tn (map Qcabs (zip_with Qcminus te pe))
                       (map (vmap Qcabs) (zip_with vsub tf pf)))
                  / Qc_of_nat (length tn));
          total :=
            Qc_of_nat
              (success_count tn (map Qcabs (zip_with Qcminus te pe))
                 (map (vmap Qcabs) (zip_with vsub tf pf)));
          numel := Z.of_nat (length tn) |}.
Proof.
  intros Hn Hf He Htf Hte Ltf Lte Hsum Hlen Hne Hpos.
  unfold energy_force_within_threshold.
  rewrite Hn, Hf, He. cbn [getitem mbind result_bind].
  rewrite decide_False by (intros H; contradiction).
  rewrite decide_False by (intros H; contradiction).
  rewrite Htf, Hte. cbn [getitem mbind result_bind].
  rewrite !broadcast_same_length by done. cbn [mbind result_bind].
  rewrite count_success_spec; try done.
  - cbn [mbind result_bind]. unfold ratio.
    rewrite decide_False by (destruct tn; [done | simpl; lia]).
    cbn [mbind result_bind]. rewrite !drop_0. reflexivity.
  - rewrite length_map, length_zip_with. simpl. lia.
  - rewrite length_map, length_zip_with. simpl. lia.
Qed.

Lemma joint_success_le (error_energy : list Qc) :
  forall segs : list (list vec3),
  (length (filter structure_success (zip error_energy segs))
   <= length (filter (fun ee => (ee < e_thresh)%Qc) error_energy))%nat.
Proof.
  induction error_energy as [|ee rest IH]; intros [|seg segs]; simpl;
    try lia.
  rewrite !filter_cons. specialize (IH segs).
  destruct (decide (structure_success (ee, seg))) as [[He _]|_];
    destruct (decide (ee < e_thresh)); simpl in *; try lia.
  contradiction.
Qed.

Lemma Qc_of_nat_le (a b : nat) : (a <= b)%nat -> Qc_of_nat a <= Qc_of_nat b.
Proof.
  intros H. unfold Qcle. rewrite !Qc_of_nat_this. rewrite <- Zle_Qle. lia.
Qed.

(** On a batch where both return, the joint energy-and-force metric never
    counts more successes than the energy-only metric, over the same number
    of structures. *)
Theorem joint_success_at_most_energy_success (prediction target : batch)
    (tn : list nat) (pf tf : list vec3) (pe te : list Qc) :
  natoms target = Some tn ->
  forces prediction = Some pf ->
  energy prediction = Some pe ->
  forces target = Some tf ->
  energy target = Some te ->
  length tf = length pf ->
  length te = length pe ->
  sum_list tn = length pf ->
  length tn = length pe ->
  tn ≠ [] ->
  Forall (fun n => (0 < n)%nat) tn ->
  exists joint alone,
    energy_force_within_threshold prediction target = Ok joint
    /\ energy_within_threshold prediction target = Ok alone
    /\ total joint <= total alone
    /\ numel joint = numel alone.
Proof.
  intros Hn Hf He Htf Hte Ltf Lte Hsum Hlen Hne Hpos.
  rewrite (energy_force_within_threshold_value _ _ _ _ _ _ _
             Hn Hf He Htf Hte Ltf Lte Hsum Hlen Hne Hpos).
  assert (Hte_ne : te ≠ []).
  { intros ->. destruct tn; [done|]. simpl in *. lia. }
  rewrite (energy_within_threshold_value _ _ _ _ He Hte Lte Hte_ne).
  do 2 eexists. split; [reflexivity|]. split; [reflexivity|]. simpl.
  split; [|lia]. apply Qc_of_nat_le, joint_success_le.
Qed.

Lemma joint_success_at_most_energy_witness :
  exists joint alone,
    energy_force_within_threshold prediction_2_3 target_2_3 = Ok joint
    /\ energy_within_threshold prediction_2_3 target_2_3 = Ok alone
    /\ total joint <= total alone
    /\ numel joint = numel alone.
Proof.
  apply (joint_success_at_most_energy_success prediction_2_3 target_2_3
           [2; 3]%nat _ _ _ _ eq_refl eq_refl eq_refl eq_refl eq_refl
           eq_refl eq_refl eq_refl eq_refl).
  - discriminate.
  - repeat constructor.
Defined.

(** *** Batches merged through the table *)

Lemma Qc_of_nat_add (a b : nat) :
  Qc_of_nat (a + b) = Qc_of_nat a + Qc_of_nat b.
Proof.
  apply Qc_is_canon. unfold Qcplus, Q2Qc. simpl this.
  rewrite Qred_correct, Nat2Z.inj_add, inject_Z_plus. reflexivity.
Qed.

Lemma eval_one_pair (call : caller) (p fn : string) (res : stat)
    (prediction target : batch) (prev : gmap string metric_record) :
  call fn prediction target p = Ok res ->
  Evaluator.eval call
    (Evaluator.init None (PyDict [(p, Evaluator.metrics_entry [fn])]))
    prediction target prev
  = Evaluator.update (Evaluator.metric_name p fn) res prev.
Proof.
  intros Hcall. unfold Evaluator.eval. simpl.
  destruct (decide (p = p)) as [_|Hne]; [|contradiction]. simpl.
  rewrite Hcall.
  by destruct (Evaluator.update _ res prev) as [m [|e]].
Qed.

Lemma energy_within_threshold_collate (pA tA pB tB : batch)
    (peA teA peB teB : list Qc) :
  energy pA = Some peA -> energy tA = Some teA ->
  energy pB = Some peB -> energy tB = Some teB ->
  length teA = length peA -> length teB = length peB ->
  teA ≠ [] ->
  exists kA kB,
    energy_within_threshold pA tA =
      Ok {| metric := Some (Qc_of_nat kA / Qc_of_nat (length teA));
            total := Qc_of_nat kA; numel := Z.of_nat (length teA) |}
    /\ (teB ≠ [] ->
        energy_within_threshold pB tB =
          Ok {| metric := Some (Qc_of_nat kB / Qc_of_nat (length teB));
                total := Qc_of_nat kB; numel := Z.of_nat (length teB) |})
    /\ energy_within_threshold (collate pA pB) (collate tA tB) =
         Ok {| metric := Some (Qc_of_nat (kA + kB)
                               / Qc_of_nat (length teA + length teB));
               total := Qc_of_nat (kA + kB);
               numel := Z.of_nat (length teA + length teB) |}.
Proof.
  intros HpA HtA HpB HtB LA LB Hne.
  eexists _, _. split; [by apply energy_within_threshold_value|].
  split; [intros HneB; by apply energy_within_threshold_value|].
  rewrite (energy_within_threshold_value (collate pA pB) (collate tA tB)
             (peA ++ peB) (teA ++ teB)).
  - rewrite zip_with_app by done.
    rewrite map_app, list.filter_app, !length_app. reflexivity.
  - simpl. by rewrite HpA, HpB.
  - simpl. by rewrite HtA, HtB.
  - rewrite !length_app. lia.
  - by destruct teA.
Qed.

Lemma module_call_energy_within_threshold (others : caller)
    (prediction target : batch) (key : string) :
  Evaluator.module_call others "energy_within_threshold" prediction target key
  = stat_of_record <$> energy_within_threshold prediction target.
Proof. reflexivity. Qed.

Lemma eval_energy_evaluator (others : caller) (prediction target : batch)
    (r : metric_record) (prev : gmap string metric_record) :
  energy_within_threshold prediction target = Ok r ->
  Evaluator.eval (Evaluator.module_call others) energy_evaluator
    prediction target prev
  = Evaluator.update "energy_within_threshold" (stat_of_record r) prev.
Proof.
  intros Hr. unfold energy_evaluator.
  rewrite (eval_one_pair _ "energy" "energy_within_threshold"
             (stat_of_record r)); [reflexivity|].
  by rewrite module_call_energy_within_threshold, Hr.
Qed.

(** Metrics are weighted sums across batches: evaluating batch A into a
    table and then batch B into the result gives the same table as
    evaluating the two batches collated into one, for the
    [energy_within_threshold] metric and batches of any, possibly unequal,
    non-zero sizes. *)
Theorem eval_accumulates_batches (others : caller) (pA tA pB tB : batch)
    (peA teA peB teB : list Qc) (prev : gmap string metric_record) :
  energy pA = Some peA -> energy tA = Some teA ->
  energy pB = Some peB -> energy tB = Some teB ->
  length teA = length peA -> length teB = length peB ->
  teA ≠ [] -> teB ≠ [] ->
  (0 <= numel (current "energy_within_threshold" prev))%Z ->
  Evaluator.eval (Evaluator.module_call others) energy_evaluator pB tB
    (fst (Evaluator.eval (Evaluator.module_call others) energy_evaluator
            pA tA prev))
  = Evaluator.eval (Evaluator.module_call others) energy_evaluator
      (collate pA pB) (collate tA tB) prev
  /\ snd (Evaluator.eval (Evaluator.module_call others) energy_evaluator
            (collate pA pB) (collate tA tB) prev) = Returned.
Proof.
  intros HpA HtA HpB HtB LA LB HneA HneB Hprev.
  destruct (energy_within_threshold_collate pA tA pB tB _ _ _ _
              HpA HtA HpB HtB LA LB HneA) as (kA & kB & HA & HB & HAB).
  specialize (HB HneB).
  rewrite (eval_energy_evaluator _ _ _ _ _ HA).
  rewrite (eval_energy_evaluator _ _ _ _ _ HAB).
  assert (HnA : (0 < length teA)%nat) by (destruct teA; [done|simpl; lia]).
  assert (HnB : (0 < length teB)%nat) by (destruct teB; [done|simpl; lia]).
  rewrite (update_counted _ (stat_of_record _) prev)
    by first [done | simpl; lia].
  cbn [fst]. rewrite (eval_energy_evaluator _ _ _ _ _ HB).
  rewrite update_counted; [|simpl; lia|rewrite current_insert; simpl; lia].
  rewrite (update_counted _ (stat_of_record _) prev)
    by first [done | simpl; lia].
  rewrite current_insert, insert_insert_eq. simpl. split; [|reflexivity].
  do 2 f_equal. rewrite Qc_of_nat_add.
  f_equal; [ring | lia].
Qed.

Lemma eval_accumulates_batches_witness :
  Evaluator.eval (Evaluator.module_call no_others) energy_evaluator
    (energy_batch [1; 2]) (energy_batch [1; 1])
    (fst (Evaluator.eval (Evaluator.module_call no_others) energy_evaluator
            (energy_batch [0]) (energy_batch [0]) ∅))
  = Evaluator.eval (Evaluator.module_call no_others) energy_evaluator
      (collate (energy_batch [0]) (energy_batch [1; 2]))
      (collate (energy_batch [0]) (energy_batch [1; 1])) ∅.
Proof.
  refine (proj1 (eval_accumulates_batches no_others
    (energy_batch [0]) (energy_batch [0])
    (energy_batch [1; 2]) (energy_batch [1; 1])
    [0] [0] [1; 2] [1; 1] ∅ eq_refl eq_refl eq_refl eq_refl eq_refl eq_refl
    _ _ _)); discriminate.
Defined.

(** *** A failing metric after a merged one *)

(** [eval] is not atomic: when the first function of a property returns a
    counted stat and the second raises, [eval] raises the same exception
    and the caller's table already holds the first result merged. *)
Theorem eval_raises_after_partial_merge (call : caller) (p f1 f2 : string)
    (prediction target : batch) (prev : gmap string metric_record)
    (res : stat) (e : exn) :
  call f1 prediction target p = Ok res ->
  counted res ->
  (0 <= numel (current (Evaluator.metric_name p f1) prev))%Z ->
  call f2 prediction target p = Raise e ->
  Evaluator.eval call
    (Evaluator.init None (PyDict [(p, Evaluator.metrics_entry [f1; f2])]))
    prediction target prev
  = (<[Evaluator.metric_name p f1 :=
         merged (total (current (Evaluator.metric_name p f1) prev)
                 + added_total res)
                (numel (current (Evaluator.metric_name p f1) prev)
                 + added_numel res)]> prev,
     Raised e).
Proof.
  intros H1 Hres Hprev H2. unfold Evaluator.eval. simpl.
  destruct (decide (p = p)) as [_|Hne]; [|contradiction]. simpl.
  rewrite H1, (update_counted _ _ _ Hres Hprev), H2. reflexivity.
Qed.

Lemma eval_raises_after_partial_merge_witness :
  Evaluator.eval (Evaluator.module_call no_others)
    (Evaluator.init None
       (PyDict [("forces",
                 Evaluator.metrics_entry
                   ["energy_force_within_threshold"; "forces_mae"])]))
    two_atom_batch two_atom_batch ∅
  = (<["forces_energy_force_within_threshold" :=
         merged (total (current "forces_energy_force_within_threshold" ∅)
                 + Qc_of_nat 1)
                (numel (current "forces_energy_force_within_threshold" ∅)
                 + 1)]> ∅,
     Raised TypeError).
Proof.
  refine (eval_raises_after_partial_merge (Evaluator.module_call no_others)
    "forces" "energy_force_within_threshold" "forces_mae"
    two_atom_batch two_atom_batch ∅ (StatDict (Qc_of_nat 1) 1) TypeError
    _ _ _ eq_refl).
  - reflexivity.
  - simpl. lia.
  - discriminate.
Defined.

(** *** Mean absolute and mean squared error *)

Lemma Qc_sum_zero (a b : Qc) : 0 <= a -> 0 <= b -> a + b = 0 -> a = 0 /\ b = 0.
Proof.
  intros Ha Hb Hab.
  assert (Ha' : a <= 0).
  { replace a with (0 - b) by (rewrite <- Hab; ring).
    revert Hb. qc_to_q. generalize (this b). intros q Hq. simpl. lra. }
  assert (Hb' : b <= 0).
  { replace b with (0 - a) by (rewrite <- Hab; ring).
    revert Ha. qc_to_q. generalize (this a). intros q Hq. simpl. lra. }
  split; by apply Qcle_antisym.
Qed.

Lemma sum_entries_nonneg (xs : list Qc) :
  Forall (fun x => 0 <= x) xs -> 0 <= sum_entries xs.
Proof.
  induction 1 as [|x xs Hx _ IH]; simpl; [done|].
  replace 0 with (0 + 0) by ring. by apply Qcplus_le_compat.
Qed.

Lemma sum_entries_zero (xs : list Qc) :
  Forall (fun x => 0 <= x) xs ->
  sum_entries xs = 0 <-> Forall (fun x => x = 0) xs.
Proof.
  induction 1 as [|x xs Hx Hxs IH]; simpl.
  - split; [constructor | done].
  - split.
    + intros H. apply Qc_sum_zero in H as [-> H];
        [|done|by apply sum_entries_nonneg].
      constructor; [done | by apply IH].
    + intros H. inversion H as [|? ? -> Hrest]; subst.
      apply IH in Hrest. fold (sum_entries xs). rewrite Hrest. ring.
Qed.

Lemma zip_with_minus_zero (ts ps : list Qc) :
  length ts = length ps ->
  Forall (fun x => x = 0) (map Qcabs (zip_with Qcminus ts ps)) <-> ts = ps.
Proof.
  revert ps. induction ts as [|t ts IH]; intros [|p ps]; simpl;
    intros Hlen; try done.
  split.
  - intros H. inversion H as [|? ? Hx Hrest]; subst.
    apply Qcabs_null in Hx. f_equal.
    + replace t with (t - p + p) by ring. rewrite Hx. ring.
    + apply IH; [lia | done].
  - intros [= -> ->]. constructor; [apply Qcabs_diag|].
    apply IH; [lia | done].
Qed.

(** On two 1-D tensors of equal length, [mae] returns a [total] that is
    never negative and is zero exactly when prediction and target are equal,
    with [numel] the number of entries. *)
Theorem mae_total_zero_iff_equal (prediction target : list Qc) :
  length target = length prediction ->
  exists r,
    mae_vector prediction target = Ok r
    /\ measured_numel r = length target
    /\ 0 <= measured_total r
    /\ (measured_total r = 0 <-> prediction = target).
Proof.
  intros Hlen. unfold mae_vector.
  rewrite broadcast_same_length by done. cbn [mbind result_bind].
  eexists. split; [reflexivity|]. simpl.
  assert (Hnn : Forall (fun x => 0 <= x)
                  (map Qcabs (zip_with Qcminus target prediction))).
  { apply Forall_forall. intros x Hin. apply in_map_iff in Hin as (y & <- & _).
    apply Qcabs_nonneg. }
  split; [|split].
  - rewrite length_map, length_zip_with. lia.
  - by apply sum_entries_nonneg.
  - rewrite sum_entries_zero by done.
    rewrite zip_with_minus_zero by done. split; congruence.
Qed.

Lemma mae_total_zero_witness :
  exists r,
    mae_vector [1; 2] [1; 0] = Ok r
    /\ measured_numel r = 2%nat
    /\ 0 <= measured_total r
    /\ (measured_total r = 0 <-> [1; 2] = [1; (0 : Qc)]).
Proof. by apply (mae_total_zero_iff_equal [1; 2] [1; 0]). Defined.

Lemma zip_with_minus_swap (h : Qc -> Qc) (a b : list Qc) :
  (forall x y, h (x - y) = h (y - x)) ->
  map h (zip_with Qcminus a b) = map h (zip_with Qcminus b a).
Proof.
  intros Hh. revert b. induction a as [|x a IH]; intros [|y b]; simpl;
    try done.
  by rewrite Hh, IH.
Qed.

Lemma broadcast_minus_swap (h : Qc -> Qc) (a b : list Qc) :
  (forall x y, h (x - y) = h (y - x)) ->
  (d ← broadcast RuntimeError Qcminus a b; Ok (measure (map h d))) =
  (d ← broadcast RuntimeError Qcminus b a; Ok (measure (map h d))).
Proof.
  intros Hh. unfold broadcast.
  destruct (decide (length a = length b)) as [Hlen|Hlen].
  - rewrite decide_True by done. cbn [mbind result_bind].
    by rewrite (zip_with_minus_swap h a b).
  - rewrite decide_False by congruence.
    assert (Hmap : forall x l,
      map h (map (Qcminus x) l) = map h (map (fun y => y - x) l)).
    { intros x l. rewrite !map_map. apply map_ext. intros y. apply Hh. }
    destruct a as [|x [|x' a]], b as [|y [|y' b]]; simpl in *;
      try done; cbn [mbind result_bind].
    + by rewrite Hmap, (Hh x y), (Hh x y').
    + by rewrite <- Hmap, (Hh x y), (Hh x' y).
Qed.

(** [mae] and [mse] do not distinguish prediction from target: swapping the
    two arguments gives the same record, or the same error, for tensors of
    any lengths. *)
Theorem mae_mse_symmetric (prediction target : list Qc) :
  mae_vector prediction target = mae_vector target prediction
  /\ mse_vector prediction target = mse_vector target prediction.
Proof.
  unfold mae_vector, mse_vector. split.
  - apply (broadcast_minus_swap Qcabs). intros x y. apply Qcabs_Qcminus.
  - apply (broadcast_minus_swap (fun x => x * x)). intros x y. ring.
Qed.

(** A batch with no atom: the per-component [mae] returns
    [{metric: nan, total: 0, numel: 0}] without error, and merging that
    record under a name the table does not have yet raises
    [ZeroDivisionError], leaving a [{metric: None, total: 0, numel: 0}]
    entry behind. *)
Theorem forces_mae_of_no_atom_fails_in_update (k : nat) (key : string)
    (prediction target : batch) (metrics : gmap string metric_record) :
  forces prediction = Some [] ->
  forces target = Some [] ->
  metrics !! key = None ->
  exists r,
    forces_column_mae k prediction target = Ok r
    /\ r = {| measured_metric := NaN; measured_total := 0;
              measured_numel := 0 |}
    /\ Evaluator.update key (stat_of_measured r) metrics =
         (<[key := {| metric := None; total := 0 + 0; numel := 0 |}]> metrics,
          Raised ZeroDivisionError).
Proof.
  intros Hp Ht Hkey. eexists. split; [|split; [reflexivity|]].
  - unfold forces_column_mae. rewrite Hp, Ht. reflexivity.
  - unfold Evaluator.update, stat_of_measured. simpl.
    rewrite (seed_absent _ _ Hkey). unfold Evaluator.accumulate.
    rewrite lookup_insert_eq. simpl. by rewrite insert_insert_eq.
Qed.

Lemma forces_mae_of_no_atom_witness :
  exists r,
    forces_column_mae 0 empty_batch empty_batch = Ok r
    /\ r = {| measured_metric := NaN; measured_total := 0;
              measured_numel := 0 |}
    /\ Evaluator.update "forcesx_mae" (stat_of_measured r) ∅ =
         (<["forcesx_mae" :=
              {| metric := None; total := 0 + 0; numel := 0 |}]> ∅,
          Raised ZeroDivisionError).
Proof.
  by apply (forces_mae_of_no_atom_fails_in_update 0 "forcesx_mae"
              empty_batch empty_batch ∅).
Defined.

(** *** [min_diff]: cells, flags and zero displacement *)

Lemma det_transpose (cell : mat3) : det (transpose cell) = det cell.
Proof.
  destruct cell as [[[[a b] c] [[d e] f]] [[g h] i]].
  unfold det, transpose. ring.
Qed.

Lemma wrap_periodic_false_tail (pbc : list bool) (n : nat) :
  forall (i : nat) (fractional : list vec3),
  wrap_periodic i (pbc ++ replicate n false) fractional
  = wrap_periodic i pbc fractional.
Proof.
  induction pbc as [|b pbc IH]; intros i fractional; simpl.
  - revert i. induction n as [|n IHn]; intros i; simpl; [done|]. apply IHn.
  - destruct b; [|apply IH]. destruct (decide _); [apply IH | done].
Qed.

Lemma wrap_periodic_true_late (pbc : list bool) :
  forall (i : nat) (fractional : list vec3),
  (3 <= i)%nat -> In true pbc ->
  wrap_periodic i pbc fractional = Raise IndexError.
Proof.
  induction pbc as [|b pbc IH]; intros i fractional Hi Hin; [done|].
  simpl. destruct b.
  - by rewrite decide_False by lia.
  - destruct Hin as [|Hin]; [done|]. apply IH; [lia | done].
Qed.

Lemma wrap_periodic_returns (pbc : list bool) :
  forall (i : nat) (fractional : list vec3),
  (i + length pbc <= 3)%nat ->
  exists wrapped_, wrap_periodic i pbc fractional = Ok wrapped_.
Proof.
  induction pbc as [|b pbc IH]; intros i fractional Hi; simpl in *.
  - by eexists.
  - destruct b; [rewrite decide_True by lia|]; apply IH; lia.
Qed.

(** The flag list is read against the three columns: trailing [False] flags
    change nothing, and a [True] flag at position 3 or later raises
    [IndexError] (non-singular cell, positions of equal number). *)
Theorem min_diff_flags_beyond_three_columns (pred_pos dft_pos : list vec3)
    (cell : mat3) (pbc : list bool) :
  (forall n,
      min_diff pred_pos dft_pos cell (pbc ++ replicate n false)
      = min_diff pred_pos dft_pos cell pbc)
  /\ (forall late,
        length pred_pos = length dft_pos -> det cell ≠ 0 ->
        length pbc = 3%nat -> In true late ->
        min_diff pred_pos dft_pos cell (pbc ++ late) = Raise IndexError).
Proof.
  split.
  - intros n. unfold min_diff.
    destruct (broadcast ValueError vsub pred_pos dft_pos) as [pos_diff|];
      [|done].
    cbn [mbind result_bind].
    destruct (linalg_solve_T cell pos_diff); [|done].
    cbn [mbind result_bind].
    by rewrite wrap_periodic_false_tail.
  - intros late Hlen Hdet Hpbc Hin. unfold min_diff.
    rewrite broadcast_same_length by done. cbn [mbind result_bind].
    unfold linalg_solve_T. rewrite det_transpose.
    rewrite decide_False by done. cbn [mbind result_bind].
    destruct pbc as [|a [|b [|c [|? ?]]]]; try discriminate.
    assert (Hlate : forall i fr, (3 <= i)%nat ->
              wrap_periodic i late fr = Raise IndexError).
    { intros i fr Hi. by apply wrap_periodic_true_late. }
    simpl. destruct a, b, c; simpl;
      rewrite ?decide_True by lia; by rewrite Hlate.
Qed.

Lemma map_replicate_fixed {A} (f : A -> A) (z : A) (n : nat) :
  f z = z -> map f (replicate n z) = replicate n z.
Proof. intros Hz. induction n as [|n IH]; simpl; [done|]. by rewrite Hz, IH. Qed.

Lemma zip_with_vsub_diag (pos : list vec3) :
  zip_with vsub pos pos = replicate (length pos) origin.
Proof.
  induction pos as [|[[x y] z] pos IH]; simpl; [done|].
  rewrite IH. unfold origin. do 2 f_equal; [f_equal|]; ring.
Qed.

Lemma mod1_zero : mod1 0 = 0.
Proof. apply Qc_is_canon. reflexivity. Qed.

Lemma mod_column_origin (i : nat) : mod_column i origin = origin.
Proof. unfold origin. destruct i as [|[|i]]; simpl; by rewrite mod1_zero. Qed.

Lemma wrap_periodic_origin (pbc : list bool) (n : nat) :
  forall i : nat,
  (i + length pbc <= 3)%nat ->
  wrap_periodic i pbc (replicate n origin) = Ok (replicate n origin).
Proof.
  induction pbc as [|b pbc IH]; intros i Hi; simpl in *; [done|].
  destruct b.
  - rewrite decide_True by lia.
    rewrite !map_replicate_fixed by (apply mod_column_origin).
    apply IH. lia.
  - apply IH. lia.
Qed.

Lemma solve_column_origin (A : mat3) : solve_column A origin = origin.
Proof.
  destruct A as [[[[a b] c] [[d e] f]] [[g h] i]].
  unfold solve_column, origin, replace_column, det, Qcdiv.
  f_equal; [f_equal|]; ring.
Qed.

Lemma vecmat_origin (cell : mat3) : vecmat origin cell = origin.
Proof.
  destruct cell as [[[[a b] c] [[d e] f]] [[g h] i]].
  unfold vecmat, origin.
  apply pair_equal_spec; split; [apply pair_equal_spec; split|]; ring.
Qed.

Lemma shift_zero : shift 0 = 0.
Proof. unfold shift. by rewrite decide_False. Qed.

(** Positions compared with themselves have zero displacement: in any
    non-singular cell and for any flags over the three axes, [min_diff]
    returns one zero row per atom. *)
Theorem min_diff_of_equal_positions (pos : list vec3) (cell : mat3)
    (pbc : list bool) :
  det cell ≠ 0 ->
  (length pbc <= 3)%nat ->
  min_diff pos pos cell pbc = Ok (replicate (length pos) origin).
Proof.
  intros Hdet Hpbc. unfold min_diff.
  rewrite broadcast_same_length by done. cbn [mbind result_bind].
  unfold linalg_solve_T. rewrite det_transpose, decide_False by done.
  cbn [mbind result_bind]. rewrite zip_with_vsub_diag.
  rewrite map_replicate_fixed by (apply solve_column_origin).
  rewrite wrap_periodic_origin by (simpl; lia). cbn [mbind result_bind].
  rewrite map_replicate_fixed by (unfold origin; simpl; by rewrite shift_zero).
  by rewrite map_replicate_fixed by (apply vecmat_origin).
Qed.

Lemma min_diff_of_equal_positions_witness :
  min_diff [(1, 2, 0); (0, 0, 1)] [(1, 2, 0); (0, 0, 1)]
    ((2, 0, 0), (1, 1, 0), (0, 0, 1)) [true; false; true]
  = Ok (replicate 2 origin).
Proof.
  apply (min_diff_of_equal_positions [(1, 2, 0); (0, 0, 1)]
           ((2, 0, 0), (1, 1, 0), (0, 0, 1)) [true; false; true]).
  - discriminate.
  - simpl. lia.
Defined.

(** *** Normalizer: the default, construction *)

Lemma Qc_minus_zero (x : Qc) : x - 0 = x.
Proof. ring. Qed.

Lemma Qc_div_one (x : Qc) : x / 1 = x.
Proof. field. discriminate. Qed.

Lemma Qc_mult_one (x : Qc) : x * 1 = x.
Proof. ring. Qed.

Lemma Qc_plus_zero (x : Qc) : x + 0 = x.
Proof. ring. Qed.

Lemma elementwise_scalar_identity (f : Qc -> Qc -> Qc) (c : Qc)
    (x : Normalizer.tensor) :
  (forall v, f v c = v) ->
  Normalizer.elementwise f x (Normalizer.Scalar c) = Ok x.
Proof.
  intros Hf. destruct x as [v|xs|cols rows]; simpl; do 2 f_equal.
  - apply Hf.
  - rewrite <- (map_id xs) at 2. apply map_ext. apply Hf.
  - rewrite <- (map_id rows) at 2. apply map_ext. intros row.
    rewrite <- (map_id row) at 2. apply map_ext. apply Hf.
Qed.

(** [Normalizer()] with its default [mean=0.0], [std=1.0] is the identity:
    [norm] and [denorm] return every tensor unchanged. *)
Theorem default_normalizer_is_identity (x : Normalizer.tensor) :
  Normalizer.norm Normalizer.default x = Ok x
  /\ Normalizer.denorm Normalizer.default x = Ok x.
Proof.
  unfold Normalizer.norm, Normalizer.denorm, Normalizer.default.
  cbn [Normalizer.mean Normalizer.std]. split.
  - rewrite (elementwise_scalar_identity Qcminus 0 x Qc_minus_zero).
    cbn [mbind result_bind].
    apply (elementwise_scalar_identity Qcdiv 1 x Qc_div_one).
  - rewrite (elementwise_scalar_identity Qcmult 1 x Qc_mult_one).
    cbn [mbind result_bind].
    apply (elementwise_scalar_identity Qcplus 0 x Qc_plus_zero).
Qed.

(** A state dict never yields a normalizer: whether it is passed directly
    or read from a file that [torch.load] accepts, and whatever else is
    passed, [create_normalizer] raises; when the module loads the dict
    without error, the exception is the [AttributeError] of calling [.to] on
    the [None] that [load_state_dict] returned. *)
Theorem create_normalizer_state_dict_never_returns
    (module_load_state_dict :
       Normalizer.t -> Normalizer.state_dict -> result Normalizer.t)
    (torch_mean torch_std : Normalizer.tensor -> Normalizer.tensor)
    (sd : Normalizer.state_dict) (tensor_ mean_ std_ : option Normalizer.tensor) :
  (exists e,
      Normalizer.create_normalizer module_load_state_dict torch_mean
        torch_std None (Some sd) tensor_ mean_ std_ = Raise e)
  /\ (forall other,
        exists e,
          Normalizer.create_normalizer module_load_state_dict torch_mean
            torch_std (Some (Normalizer.PtFile sd)) other tensor_ mean_ std_
          = Raise e)
  /\ (forall loaded,
        Normalizer.load_state_dict module_load_state_dict
          Normalizer.default sd = Ok loaded ->
        Normalizer.create_normalizer module_load_state_dict torch_mean
          torch_std None (Some sd) tensor_ mean_ std_
        = Raise AttributeError).
Proof.
  unfold Normalizer.create_normalizer. repeat split.
  - destruct (Normalizer.load_state_dict _ _ sd) as [u|e]; by eexists.
  - intros other.
    destruct (Normalizer.load_state_dict _ _ sd) as [u|e]; by eexists.
  - by intros loaded ->.
Qed.

(** A file comes first: what an npz archive holds for "mean" and "std"
    replaces the [mean] and [std] arguments, also when the archive lacks an
    entry, in which case the call raises [ValueError] although a value was
    passed; without a file, explicit [mean] and [std] are used as given. *)
Theorem create_normalizer_file_overrides_arguments
    (module_load_state_dict :
       Normalizer.t -> Normalizer.state_dict -> result Normalizer.t)
    (torch_mean torch_std : Normalizer.tensor -> Normalizer.tensor)
    (m s : Normalizer.tensor) (mean_ std_ : option Normalizer.tensor) :
  Normalizer.create_normalizer module_load_state_dict torch_mean torch_std
    (Some (Normalizer.NpzFile (Some m) (Some s))) None None mean_ std_
  = Ok {| Normalizer.mean := m; Normalizer.std := s |}
  /\ Normalizer.create_normalizer module_load_state_dict torch_mean
       torch_std (Some (Normalizer.NpzFile (Some m) None)) None None
       mean_ std_ = Raise ValueError
  /\ Normalizer.create_normalizer module_load_state_dict torch_mean
       torch_std (Some (Normalizer.NpzFile None (Some s))) None None
       mean_ std_ = Raise ValueError
  /\ Normalizer.create_normalizer module_load_state_dict torch_mean
       torch_std None None None (Some m) (Some s)
     = Ok {| Normalizer.mean := m; Normalizer.std := s |}.
Proof. by repeat split. Qed.

(** *** A perfect prediction under the joint metric *)

Lemma segments_length (tn : list nat) :
  forall rows : list vec3, length (segments tn rows) = length tn.
Proof. induction tn as [|n tn IH]; intros rows; simpl; [done|]. by rewrite IH. Qed.

Lemma segments_Forall (P : vec3 -> Prop) (tn : list nat) :
  forall rows : list vec3,
  Forall P rows -> Forall (Forall P) (segments tn rows).
Proof.
  induction tn as [|n tn IH]; intros rows Hrows; simpl; constructor.
  - by apply Forall_take.
  - by apply IH, Forall_drop.
Qed.

Lemma all_structures_succeed (n : nat) :
  forall segs : list (list vec3),
  Forall (within f_thresh) segs ->
  length (filter structure_success (zip (replicate n (0 : Qc)) segs))
  = Nat.min n (length segs).
Proof.
  induction n as [|n IH]; intros segs Hsegs; simpl; [done|].
  destruct Hsegs as [|seg segs Hseg Hsegs]; simpl; [done|].
  rewrite filter_cons, decide_True; [|by split].
  simpl. by rewrite IH.
Qed.

Lemma zip_with_vsub_origin (fs : list vec3) :
  map (vmap Qcabs) (zip_with vsub fs fs) = replicate (length fs) origin.
Proof.
  rewrite zip_with_vsub_diag. apply map_replicate_fixed.
  unfold origin. simpl. f_equal; [f_equal|]; apply Qc_is_canon; reflexivity.
Qed.

(** A prediction equal to the target in energies and forces is a success
    for every structure under the joint metric: [metric] is 1 and
    [total = numel], for a batch of at least one structure in which every
    structure has an atom. *)
Theorem energy_force_within_threshold_perfect (prediction target : batch)
    (tn : list nat) (fs : list vec3) (es : list Qc) :
  natoms target = Some tn ->
  forces prediction = Some fs -> forces target = Some fs ->
  energy prediction = Some es -> energy target = Some es ->
  sum_list tn = length fs ->
  length tn = length es ->
  tn ≠ [] ->
  Forall (fun n => (0 < n)%nat) tn ->
  energy_force_within_threshold prediction target =
    Ok {| metric := Some 1;
          total := Qc_of_nat (length tn);
          numel := Z.of_nat (length tn) |}.
Proof.
  intros Hn Hpf Htf Hpe Hte Hsum Hlen Hne Hpos.
  rewrite (energy_force_within_threshold_value _ _ tn fs fs es es)
    by done.
  unfold success_count.
  rewrite zip_with_minus_diag, zip_with_vsub_origin.
  rewrite all_structures_succeed.
  - rewrite segments_length. replace (length es `min` length tn)
      with (length tn) by lia.
    do 2 f_equal. f_equal. field. apply Qc_of_nat_nonzero.
    destruct tn; [done | simpl; lia].
  - apply segments_Forall. apply Forall_replicate.
    unfold origin. by repeat constructor.
Qed.

Lemma energy_force_within_threshold_perfect_witness :
  energy_force_within_threshold target_2_3 target_2_3 =
    Ok {| metric := Some 1; total := Qc_of_nat 2; numel := 2 |}.
Proof.
  apply (energy_force_within_threshold_perfect target_2_3 target_2_3
           [2; 3]%nat _ _ eq_refl eq_refl eq_refl eq_refl eq_refl
           eq_refl eq_refl).
  - discriminate.
  - repeat constructor.
Defined.
